(** * Struct conversion of [src/common.ts]

    A shallow embedding of the encoder [ObjectToStructConverter]
    ([convert], [encodeValue_]), of the memoised classifier [isPlainObject]
    and of the decoder ([structToObj], [decodeValue]), with the properties
    of the specification stated over it.

    Modelling choices.
    - The value handed to the encoder lives in a heap of objects with
      identity ([heap], a finite map from locations to objects): identity
      is what [seenObjects] and the classifier cache are keyed on, and a
      heap can be cyclic.  The encoder only reads that heap.
    - The objects the encoder and the decoder create are fresh, never
      aliased and never inspected by identity, so they are trees
      ([jsval]); their leaves are primitives and references to objects of
      the input heap (a [Buffer] is passed on by reference).
    - Numbers are IEEE 754 values ([spec_float]); the code only carries
      them around.
    - Properties are data properties (no accessors); arrays are dense;
      the built-in prototypes are the pristine ones. *)

From Stdlib Require Import SpecFloat.
From stdpp Require Import gmap strings list.

Open Scope string_scope.
Open Scope list_scope.

(** ** Native values *)

Abbreviation loc := nat (only parsing).

(** A JavaScript value: the primitives, and references to heap objects. *)
Inductive value : Type :=
  | VUndefined
  | VNull
  | VBool (b : bool)
  | VNumber (n : spec_float)
  | VString (s : string)
  | VSymbol (id : nat)
  | VBigInt (z : Z)
  | VRef (l : loc).

(** What [isPlainObject] observes of [proto.constructor]: the three tests
    of its [if], in order.  [constr instanceof constr] throws a TypeError
    when [constr.prototype] is not an object ([None]). *)
Record constructor_desc : Type := mkConstructor {
  ctor_typeof_function : bool;
  ctor_instanceof_self : option bool;
  ctor_tag_Function : bool
}.

(** The result of [Object.getPrototypeOf]: [null], [Object.prototype], or
    another object.  Of that one the code reads the own [constructor]
    property; its enumerable properties (its own and those it inherits,
    as they are visible through it, each key once) are what for-in visits
    after the own keys and what [obj[prop]] reads for a key that [obj]
    does not own. *)
Inductive prototype : Type :=
  | ProtoNull
  | ProtoObject
  | ProtoOther (own_constructor : option constructor_desc)
               (enumerable : list (string * value)).

Record property : Type := mkProperty {
  p_key : string;
  p_enumerable : bool;
  p_value : value
}.

(** An object that is neither an array, a Buffer nor a function.  [o_own]
    lists the own string-keyed properties in the order for-in enumerates
    them; [o_String] is the result of [String(value)] ([None]: the
    conversion throws a TypeError). *)
Record ordinary : Type := mkOrdinary {
  o_proto : prototype;
  o_own : list property;
  o_String : option string
}.

Inductive object : Type :=
  | OOrdinary (o : ordinary)
  | OArray (elems : list value)
  | OBuffer (bytes : list N)
  | OFunction.

Abbreviation heap := (gmap loc object) (only parsing).

(** [typeof value]; a dangling reference has none. *)
Definition typeof (h : heap) (v : value) : option string :=
  match v with
  | VUndefined => Some "undefined"
  | VNull => Some "object"
  | VBool _ => Some "boolean"
  | VNumber _ => Some "number"
  | VString _ => Some "string"
  | VSymbol _ => Some "symbol"
  | VBigInt _ => Some "bigint"
  | VRef l =>
      match h !! l with
      | Some OFunction => Some "function"
      | Some _ => Some "object"
      | None => None
      end
  end.

(** The built-in constructors [Array], [Buffer] and [Function] as
    [isPlainObject] would see them: all are functions tagged
    [[object Function]]; only [Function instanceof Function] holds. *)
Definition ctor_Array : constructor_desc := mkConstructor true (Some false) true.
Definition ctor_Buffer : constructor_desc := mkConstructor true (Some false) true.
Definition ctor_Function : constructor_desc := mkConstructor true (Some true) true.

Definition getPrototypeOf (o : object) : prototype :=
  match o with
  | OOrdinary o => o_proto o
  | OArray _ => ProtoOther (Some ctor_Array) []
  | OBuffer _ => ProtoOther (Some ctor_Buffer) []
  | OFunction => ProtoOther (Some ctor_Function) []
  end.

(** ** Created values *)

(** Values built by the code: a leaf is a primitive or a reference into
    the input heap, [JArr] a fresh array, [JObj] a fresh object literal
    (prototype [Object.prototype], own enumerable data properties in
    for-in order). *)
#[warnings="-register-all"]
Inductive jsval : Type :=
  | JPrim (v : value)
  | JArr (xs : list jsval)
  | JObj (props : list (string * jsval)).

(** ** Outcomes *)

(** What the code throws: [throw '...'] throws a string, [throw new
    Error(msg)] an Error; the run time throws TypeErrors. *)
Inductive thrown : Type :=
  | ThrownString (s : string)
  | ThrownError (message : string)
  | ThrownTypeError.

Inductive outcome (A : Type) : Type :=
  | Ret (a : A)         (* normal completion *)
  | Throw (e : thrown)  (* abrupt completion *)
  | Unmodelled          (* behaviour outside this model *)
  | OutOfFuel.          (* recursion deeper than the fuel given *)
Arguments Ret {A} a.
Arguments Throw {A} e.
Arguments Unmodelled {A}.
Arguments OutOfFuel {A}.

Definition obind {A B : Type} (m : outcome A) (k : A → outcome B) : outcome B :=
  match m with
  | Ret a => k a
  | Throw e => Throw e
  | Unmodelled => Unmodelled
  | OutOfFuel => OutOfFuel
  end.

(** ** Mutable state of the encoder *)

(** [seenObjects] is the converter's [Set]; [isPlainObjectCache] is the
    module's [_isPlainObjectCache] WeakMap.  Both are keyed by identity. *)
Record state : Type := mkState {
  seenObjects : gset loc;
  isPlainObjectCache : gmap loc bool
}.

(** A computation reads and writes the state; the state survives a throw. *)
Definition M (A : Type) : Type := state → outcome A * state.

Definition ret {A : Type} (a : A) : M A := fun st => (Ret a, st).
Definition throw {A : Type} (e : thrown) : M A := fun st => (Throw e, st).
Definition unmodelled {A : Type} : M A := fun st => (Unmodelled, st).
Definition out_of_fuel {A : Type} : M A := fun st => (OutOfFuel, st).

Definition bind {A B : Type} (m : M A) (k : A → M B) : M B :=
  fun st =>
    match m st with
    | (Ret a, st') => k a st'
    | (Throw e, st') => (Throw e, st')
    | (Unmodelled, st') => (Unmodelled, st')
    | (OutOfFuel, st') => (OutOfFuel, st')
    end.

Notation "x <- m ;; k" := (bind m (fun x => k))
  (at level 62, m at next level, right associativity).
Arguments bind : simpl never.

Definition seen_add (l : loc) : M unit :=
  fun st => (Ret tt, mkState ({[l]} ∪ seenObjects st) (isPlainObjectCache st)).
Definition seen_delete (l : loc) : M unit :=
  fun st => (Ret tt, mkState (seenObjects st ∖ {[l]}) (isPlainObjectCache st)).
Definition seen_has (l : loc) : M bool :=
  fun st => (Ret (bool_decide (l ∈ seenObjects st)), st).

Definition cache_get (l : loc) : M (option bool) :=
  fun st => (Ret (isPlainObjectCache st !! l), st).
Definition cache_set (l : loc) (b : bool) : M unit :=
  fun st => (Ret tt, mkState (seenObjects st) (<[l:=b]> (isPlainObjectCache st))).

(** ** The classifier *)

(** [isPlainObject(mixed)], lines 182-215: the cached answer if there is
    one; else the prototype decides, and the answer is cached. *)
Definition isPlainObject (h : heap) (mixed : loc) : M bool :=
  cached <- cache_get mixed ;;
  match cached with
  | Some b => ret b
  | None =>
      match h !! mixed with
      | None => unmodelled
      | Some o =>
          match getPrototypeOf o with
          | ProtoNull | ProtoObject =>
              _ <- cache_set mixed true ;; ret true
          | ProtoOther None _ =>
              _ <- cache_set mixed false ;; ret false
          | ProtoOther (Some constr) _ =>
              if ctor_typeof_function constr then
                match ctor_instanceof_self constr with
                | None => throw ThrownTypeError
                | Some inst =>
                    if inst && ctor_tag_Function constr then
                      _ <- cache_set mixed true ;; ret true
                    else
                      _ <- cache_set mixed false ;; ret false
                end
              else
                _ <- cache_set mixed false ;; ret false
          end
      end
  end.

(** ** Fresh objects: property read and write *)

Fixpoint prop_lookup (k : string) (props : list (string * jsval)) : option jsval :=
  match props with
  | [] => None
  | (k', v) :: rest => if String.eqb k k' then Some v else prop_lookup k rest
  end.

(** [props[k] = v] on an object that has the key: the slot keeps its place. *)
Fixpoint prop_replace (k : string) (v : jsval) (props : list (string * jsval))
  : list (string * jsval) :=
  match props with
  | [] => []
  | (k', v') :: rest =>
      if String.eqb k k' then (k', v) :: rest else (k', v') :: prop_replace k v rest
  end.

(** [obj[k] = v] on a fresh object: an existing key is overwritten, a new
    one is added last.  The key [__proto__] reaches the setter inherited
    from [Object.prototype] instead of creating a property; that is left
    out of the model. *)
Definition assign (props : list (string * jsval)) (k : string) (v : jsval)
  : outcome (list (string * jsval)) :=
  if String.eqb k "__proto__" then Unmodelled
  else match prop_lookup k props with
       | Some _ => Ret (prop_replace k v props)
       | None => Ret (props ++ [(k, v)])
       end.

(** The names [Object.prototype] defines. *)
Definition Object_prototype_keys : list string :=
  [ "constructor"; "hasOwnProperty"; "isPrototypeOf"; "propertyIsEnumerable";
    "toLocaleString"; "toString"; "valueOf"; "__proto__";
    "__defineGetter__"; "__defineSetter__"; "__lookupGetter__"; "__lookupSetter__" ].

Definition mem_string (k : string) (ks : list string) : bool :=
  existsb (String.eqb k) ks.

(** [o[k]] (or [o.k]): reading a property of [undefined] or [null] throws;
    a fresh object gives its own property, else what [Object.prototype]
    has (a built-in, not modelled), else [undefined]. *)
Definition get_prop (o : jsval) (k : string) : outcome jsval :=
  match o with
  | JPrim VUndefined | JPrim VNull => Throw ThrownTypeError
  | JObj props =>
      match prop_lookup k props with
      | Some v => Ret v
      | None =>
          if mem_string k Object_prototype_keys then Unmodelled
          else Ret (JPrim VUndefined)
      end
  | _ => Unmodelled
  end.

(** ** The encoder *)

(** The [options] argument of the constructor; both members are optional. *)
Record ObjectToStructConverterConfig : Type := mkConfig {
  opt_removeCircular : option bool;
  opt_stringify : option bool
}.

(** The configuration fields of an [ObjectToStructConverter]; its
    [seenObjects] is in the [state]. *)
Record ObjectToStructConverter : Type := mkConverter {
  removeCircular : bool;
  stringify : bool
}.

(** The constructor, lines 47-52: [options.removeCircular === true]. *)
Definition new_ObjectToStructConverter (options : option ObjectToStructConverterConfig)
  : ObjectToStructConverter :=
  let options := default (mkConfig None None) options in
  mkConverter (bool_decide (opt_removeCircular options = Some true))
              (bool_decide (opt_stringify options = Some true)).

Definition lift {A : Type} (r : outcome A) : M A := fun st => (r, st).

(** [xs.map(f)]: the elements in order, the state threaded through. *)
Fixpoint array_map {A B : Type} (f : A → M B) (xs : list A) : M (list B) :=
  match xs with
  | [] => ret []
  | x :: rest => y <- f x ;; ys <- array_map f rest ;; ret (y :: ys)
  end.

(** [proto[prop]] for an enumerable property of the prototype chain. *)
Definition inherited_get (proto : prototype) (prop : string) : value :=
  match proto with
  | ProtoOther _ inherited =>
      match find (fun kv : string * value => String.eqb prop kv.1) inherited with
      | Some kv => kv.2
      | None => VUndefined
      end
  | _ => VUndefined
  end.

(** [obj[prop]]: the own property if there is one, else the one found on
    the prototype chain, else [undefined]. *)
Definition obj_get (o : ordinary) (prop : string) : value :=
  match find (fun p => String.eqb prop (p_key p)) (o_own o) with
  | Some p => p_value p
  | None => inherited_get (o_proto o) prop
  end.

(** [is.undefined(value)] *)
Definition is_undefined (v : value) : bool :=
  match v with
  | VUndefined => true
  | _ => false
  end.

(** [Object.prototype.hasOwnProperty.call(obj, prop)] *)
Definition hasOwnProperty (o : ordinary) (prop : string) : bool :=
  mem_string prop (p_key <$> o_own o).

(** The keys [for (const prop in obj)] visits: the own enumerable ones,
    then the enumerable ones of the prototype chain that no own property
    shadows. *)
Definition for_in_keys (o : ordinary) : list string :=
  (p_key <$> filter (fun p => p_enumerable p = true) (o_own o)) ++
  match o_proto o with
  | ProtoOther _ inherited =>
      filter (fun k => mem_string k (p_key <$> o_own o) = false) inherited.*1
  | _ => []
  end.

Definition zero : spec_float := S754_zero false.

Definition circular_message : string :=
  String.concat " "
    [ "This object contains a circular reference. To automatically";
      "remove it, set the `removeCircular` option to true." ].

Section Encoder.
Variable h : heap.
Variable this : ObjectToStructConverter.

(** The body of the for-in loop of [convert], lines 79-88, over the keys
    still to visit; [fields] is [convertedObject.fields]. *)
Fixpoint convert_loop (encode : value → M jsval) (o : ordinary)
    (keys : list string) (fields : list (string * jsval))
  : M (list (string * jsval)) :=
  match keys with
  | [] => ret fields
  | prop :: rest =>
      if hasOwnProperty o prop then
        let value := obj_get o prop in
        if is_undefined value then convert_loop encode o rest fields
        else
          encoded <- encode value ;;
          fields' <- lift (assign fields prop encoded) ;;
          convert_loop encode o rest fields'
      else convert_loop encode o rest fields
  end.

(** [convert(obj)], lines 74-91, with [this.encodeValue_] as [encode].
    [obj] is an object that is not an array, a Buffer or a function. *)
Definition convert_with (encode : value → M jsval) (obj : loc) : M jsval :=
  match h !! obj with
  | Some (OOrdinary o) =>
      _ <- seen_add obj ;;
      fields <- convert_loop encode o (for_in_keys o) [] ;;
      _ <- seen_delete obj ;;
      ret (JObj [("fields", JObj fields)])
  | _ => unmodelled
  end.

(** The [case 'object'] arm of [encodeValue_], lines 133-172. *)
Definition encode_object (encode : value → M jsval) (t : string) (value : value)
  : M jsval :=
  match value with
  | VRef l =>
      match h !! l with
      | Some (OArray elems) =>
          values <- array_map encode elems ;;
          ret (JObj [("listValue", JObj [("values", JArr values)])])
      | Some (OBuffer _) =>
          ret (JObj [("blobValue", JPrim value)])
      | Some (OOrdinary o) =>
          plain <- isPlainObject h l ;;
          if plain then
            seen <- seen_has l ;;
            if seen then
              if negb (removeCircular this) then
                throw (ThrownError circular_message)
              else ret (JObj [("stringValue", JPrim (VString "[Circular]"))])
            else
              struct <- convert_with encode l ;;
              ret (JObj [("structValue", struct)])
          else
            if negb (stringify this) then
              throw (ThrownError ("Value of type " +:+ t +:+ " not recognized."))
            else
              match o_String o with
              | Some s => ret (JObj [("stringValue", JPrim (VString s))])
              | None => throw ThrownTypeError
              end
      | _ => unmodelled
      end
  | _ => unmodelled
  end.

(** [encodeValue_(value)], lines 108-175: the [switch] on the value, then
    the [switch] on [typeof value]; a value that matches no [case] leaves
    both and the function returns [undefined]. *)
Fixpoint encodeValue_ (fuel : nat) (value : value) {struct fuel} : M jsval :=
  match fuel with
  | O => out_of_fuel
  | S fuel' =>
      match value with
      | VUndefined => throw (ThrownString "Value of type undefined not recognized.")
      | VNull => ret (JObj [("nullValue", JPrim (VNumber zero))])
      | VBool _ => ret (JObj [("boolValue", JPrim value)])
      | _ =>
          match typeof h value with
          | None => unmodelled
          | Some t =>
              if String.eqb t "number" then
                ret (JObj [("numberValue", JPrim value)])
              else if String.eqb t "string" then
                ret (JObj [("stringValue", JPrim value)])
              else if String.eqb t "object" then
                encode_object (encodeValue_ fuel') t value
              else ret (JPrim VUndefined)
          end
      end
  end.

Definition convert (fuel : nat) (obj : loc) : M jsval :=
  convert_with (encodeValue_ fuel) obj.
End Encoder.

(** [objToStruct(obj, options)], lines 24-26: a new converter, whose
    [seenObjects] starts empty and is dropped with it; the classifier
    cache is the module's. *)
Definition objToStruct (fuel : nat) (h : heap) (obj : loc)
    (options : option ObjectToStructConverterConfig) (cache : gmap loc bool)
  : outcome jsval * gmap loc bool :=
  let '(r, st) := convert h (new_ObjectToStructConverter options) fuel obj (mkState ∅ cache) in
  (r, isPlainObjectCache st).

(** ** The decoder *)

(** The property key [value[k]] uses for [k]. *)
Definition to_property_key (k : jsval) : outcome string :=
  match k with
  | JPrim VUndefined => Ret "undefined"
  | JPrim VNull => Ret "null"
  | JPrim (VBool true) => Ret "true"
  | JPrim (VBool false) => Ret "false"
  | JPrim (VString s) => Ret s
  | _ => Unmodelled
  end.

(** The keys [for (const prop in fields)] visits: none for [undefined] and
    [null], the own keys of a fresh object. *)
Definition for_in_jsval (fields : jsval) : outcome (list string) :=
  match fields with
  | JPrim VUndefined | JPrim VNull => Ret []
  | JObj props => Ret (fst <$> props)
  | _ => Unmodelled
  end.

(** [fields.hasOwnProperty(prop)]: the method is looked up on [fields]
    itself; an own property of that name that is not callable makes the
    call throw. *)
Definition call_hasOwnProperty (fields : jsval) (prop : string) : outcome bool :=
  match fields with
  | JObj props =>
      match prop_lookup "hasOwnProperty" props with
      | None => Ret (mem_string prop (fst <$> props))
      | Some (JPrim (VRef _)) => Unmodelled
      | Some _ => Throw ThrownTypeError
      end
  | _ => Unmodelled
  end.

Fixpoint array_map_pure {A B : Type} (f : A → outcome B) (xs : list A) : outcome (list B) :=
  match xs with
  | [] => Ret []
  | x :: rest => obind (f x) (fun y => obind (array_map_pure f rest) (fun ys => Ret (y :: ys)))
  end.

(** The for-in loop of [structToObj], lines 242-248. *)
Fixpoint structToObj_loop (decode : jsval → outcome jsval) (fields : jsval)
    (keys : list string) (convertedObject : list (string * jsval))
  : outcome (list (string * jsval)) :=
  match keys with
  | [] => Ret convertedObject
  | prop :: rest =>
      obind (call_hasOwnProperty fields prop) (fun own =>
        if own : bool then
          obind (get_prop fields prop) (fun value =>
          obind (decode value) (fun decoded =>
          obind (assign convertedObject prop decoded) (fun convertedObject' =>
          structToObj_loop decode fields rest convertedObject')))
        else structToObj_loop decode fields rest convertedObject)
  end.

(** [structToObj(struct)], lines 239-251, with [decodeValue] as [decode]. *)
Definition structToObj_with (decode : jsval → outcome jsval) (struct : jsval)
  : outcome jsval :=
  obind (get_prop struct "fields") (fun fields =>
  obind (for_in_jsval fields) (fun keys =>
  obind (structToObj_loop decode fields keys []) (fun convertedObject =>
  Ret (JObj convertedObject)))).

(** [kind === s] for a string literal [s], as the [case] labels test it. *)
Definition is_string (kind : jsval) (s : string) : bool :=
  match kind with
  | JPrim (VString k) => String.eqb k s
  | _ => false
  end.

(** [decodeValue(value)], lines 260-278: the [switch] on [value.kind]. *)
Fixpoint decodeValue (fuel : nat) (value : jsval) {struct fuel} : outcome jsval :=
  match fuel with
  | O => OutOfFuel
  | S fuel' =>
      obind (get_prop value "kind") (fun kind =>
        if is_string kind "structValue" then
          obind (get_prop value "structValue") (structToObj_with (decodeValue fuel'))
        else if is_string kind "nullValue" then
          Ret (JPrim VNull)
        else if is_string kind "listValue" then
          obind (get_prop value "listValue") (fun listValue =>
          obind (get_prop listValue "values") (fun values =>
            match values with
            | JArr xs =>
                obind (array_map_pure (decodeValue fuel') xs) (fun ys => Ret (JArr ys))
            | JPrim VUndefined | JPrim VNull => Throw ThrownTypeError
            | _ => Unmodelled
            end))
        else
          obind (to_property_key kind) (get_prop value))
  end.

Definition structToObj (fuel : nat) (struct : jsval) : outcome jsval :=
  structToObj_with (decodeValue fuel) struct.

(** ** Notions the properties are stated with *)

(** What the prototype alone says about plainness: the decision
    [isPlainObject] takes when the cache has no answer. *)
Definition classify (proto : prototype) : outcome bool :=
  match proto with
  | ProtoNull | ProtoObject => Ret true
  | ProtoOther None _ => Ret false
  | ProtoOther (Some constr) _ =>
      if ctor_typeof_function constr then
        match ctor_instanceof_self constr with
        | None => Throw ThrownTypeError
        | Some inst => Ret (inst && ctor_tag_Function constr)
        end
      else Ret false
  end.

(** Every cached answer is the one the object's prototype gives. *)
Definition cache_sound (h : heap) (cache : gmap loc bool) : Prop :=
  ∀ l b, cache !! l = Some b →
    ∃ o, h !! l = Some o ∧ classify (getPrototypeOf o) = Ret b.

(** The own keys of an object are distinct. *)
Definition wf_object (ob : object) : Prop :=
  match ob with
  | OOrdinary o => NoDup (p_key <$> o_own o)
  | _ => True
  end.

Definition wf_heap (h : heap) : Prop :=
  map_Forall (fun _ ob => wf_object ob) h.

#[global] Instance wf_object_dec (ob : object) : Decision (wf_object ob) :=
  match ob with
  | OOrdinary o => NoDup_dec (p_key <$> o_own o)
  | _ => True_dec
  end.

(** The native value [v] as a tree, when it is acyclic plain data: built
    from null, booleans, numbers, strings, Buffers, arrays and plain
    objects only, no object below itself or in [seen], no [undefined]
    anywhere.  An object is read through its own enumerable properties. *)
Fixpoint plain_data_tree (fuel : nat) (h : heap) (seen : gset loc) (v : value)
  : option jsval :=
  match fuel with
  | O => None
  | S n =>
      match v with
      | VNull | VBool _ | VNumber _ | VString _ => Some (JPrim v)
      | VRef l =>
          match h !! l with
          | Some (OBuffer _) => Some (JPrim v)
          | Some (OArray elems) => JArr <$> mapM (plain_data_tree n h seen) elems
          | Some (OOrdinary o) =>
              if bool_decide (l ∈ seen) then None
              else match classify (o_proto o) with
                   | Ret true =>
                       JObj <$> mapM
                         (fun p => pair (p_key p) <$>
                                   plain_data_tree n h ({[l]} ∪ seen) (p_value p))
                         (filter (fun p => p_enumerable p = true) (o_own o))
                   | _ => None
                   end
          | _ => None
          end
      | _ => None
      end
  end.


(** A tagged value as [decodeValue] expects it (the [@example] of
    [structToObj]): with a [kind] member naming the populated variant, in
    the value itself and in the values below it. *)
Fixpoint with_kind (t : jsval) : jsval :=
  match t with
  | JObj [(tag, payload)] =>
      JObj [ ("kind", JPrim (VString tag));
             (tag,
              match payload with
              | JObj [(k, JObj fields)] =>
                  if String.eqb tag "structValue" then
                    JObj [(k, JObj (map (fun kv => match kv with
                                                   | (f, v) => (f, with_kind v)
                                                   end) fields))]
                  else payload
              | JObj [(k, JArr values)] =>
                  if String.eqb tag "listValue" then
                    JObj [(k, JArr (map with_kind values))]
                  else payload
              | _ => payload
              end) ]
  | _ => t
  end.

(** The same for a Struct. *)
Definition with_kind_struct (struct : jsval) : jsval :=
  match struct with
  | JObj [(k, JObj fields)] =>
      JObj [(k, JObj (map (fun kv => match kv with
                                     | (f, v) => (f, with_kind v)
                                     end) fields))]
  | _ => struct
  end.

(** The members the loop of [convert] gets to encode when it visits
    [keys]: own, and not [undefined]. *)
Definition visited_members (o : ordinary) (keys : list string)
  : list (string * value) :=
  omap (fun prop =>
          if hasOwnProperty o prop then
            if is_undefined (obj_get o prop) then None
            else Some (prop, obj_get o prop)
          else None) keys.

(** The assignments [fields[k] = v], in order. *)
Fixpoint assign_all (fields : list (string * jsval)) (kvs : list (string * jsval))
  : outcome (list (string * jsval)) :=
  match kvs with
  | [] => Ret fields
  | (k, v) :: rest => obind (assign fields k v) (fun fields' => assign_all fields' rest)
  end.

(** ** Example values *)

Definition one : spec_float := S754_finite false 4503599627370496 (-52).
Definition five : spec_float := S754_finite false 5629499534213120 (-50).

(** An object literal: prototype [Object.prototype], enumerable members. *)
Definition literal (members : list (string * value)) : object :=
  OOrdinary (mkOrdinary ProtoObject
               (map (fun kv => mkProperty kv.1 true kv.2) members)
               (Some "[object Object]")).

(** [new Foo()] for [class Foo] with no members: the prototype is
    [Foo.prototype], whose [constructor] is [Foo]. *)
Definition class_instance : object :=
  OOrdinary (mkOrdinary (ProtoOther (Some (mkConstructor true (Some false) true)) [])
               [] (Some "[object Object]")).

Definition no_state : state := mkState ∅ ∅.
Definition default_converter : ObjectToStructConverter :=
  new_ObjectToStructConverter None.

(** The members [convert] encodes: own, enumerable, and not
    [undefined]. *)
Definition encodable_members (o : ordinary) : list property :=
  filter (fun p => p_enumerable p = true ∧ is_undefined (p_value p) = false) (o_own o).

(** An object with an inherited enumerable member [inherited: "i"], a
    member that is not enumerable, a member [a: 1] and a member
    [b: undefined]. *)
Definition object_with_hidden_members : object :=
  OOrdinary (mkOrdinary
    (ProtoOther (Some (mkConstructor true (Some false) true))
                [("inherited", VString "i")])
    [ mkProperty "a" true (VNumber one);
      mkProperty "hidden" false (VNumber five);
      mkProperty "b" true VUndefined ]
    (Some "[object Object]")).

(** A converter used twice: [convert] throws on [p = {bad: new Foo()}] and
    leaves [p] in [seenObjects]; the next [convert], of [{p: p}], then
    takes [p] for a circular reference. *)
Definition heap_with_stale_entry : gmap nat object :=
  {[ 1 := literal [("bad", VRef 2)]; 2 := class_instance;
     3 := literal [("p", VRef 1)] ]}.

Definition struct_without_kind : jsval :=
  JObj [("fields",
         JObj [("p", JObj [("structValue",
                            JObj [("fields",
                                   JObj [("q", JObj [("numberValue",
                                                      JPrim (VNumber five))])])])])])].

Definition list_without_kind : jsval :=
  JObj [("listValue",
         JObj [("values", JArr [ JObj [("stringValue", JPrim (VString "a"))];
                                 JObj [("nullValue", JPrim (VNumber zero))] ])])].

Definition struct_with_kind : jsval :=
  JObj [("fields",
         JObj [("p", JObj [ ("kind", JPrim (VString "structValue"));
                            ("structValue",
                             JObj [("fields",
                                    JObj [("q", JObj [ ("kind", JPrim (VString "numberValue"));
                                                       ("numberValue",
                                                        JPrim (VNumber five)) ])])]) ])])].

Definition list_with_kind : jsval :=
  JObj [ ("kind", JPrim (VString "listValue"));
         ("listValue",
          JObj [("values",
                 JArr [ JObj [ ("kind", JPrim (VString "stringValue"));
                               ("stringValue", JPrim (VString "a")) ];
                        JObj [ ("kind", JPrim (VString "nullValue"));
                               ("nullValue", JPrim (VNumber zero)) ] ])]) ].


(** The object [{a: 1, b: [null, "x"], c: {d: true}, e: <Buffer>}]. *)
Definition heap_nested : gmap nat object :=
  {[ 1 := literal [ ("a", VNumber one); ("b", VRef 2); ("c", VRef 3); ("e", VRef 4) ];
     2 := OArray [VNull; VString "x"];
     3 := literal [("d", VBool true)];
     4 := OBuffer [1%N; 2%N] ]}.

Definition tree_nested : jsval :=
  JObj [ ("a", JPrim (VNumber one));
         ("b", JArr [JPrim VNull; JPrim (VString "x")]);
         ("c", JObj [("d", JPrim (VBool true))]);
         ("e", JPrim (VRef 4)) ].


(** ** Notions for the further properties *)

(** The encoding of a plain-data tree, read off [encodeValue_] and
    [convert]: the tag of each kind, lists and objects member by member. *)
Fixpoint tagged (t : jsval) : jsval :=
  match t with
  | JPrim VNull => JObj [("nullValue", JPrim (VNumber zero))]
  | JPrim (VBool _) => JObj [("boolValue", t)]
  | JPrim (VNumber _) => JObj [("numberValue", t)]
  | JPrim (VString _) => JObj [("stringValue", t)]
  | JPrim (VRef _) => JObj [("blobValue", t)]
  | JPrim _ => JPrim VUndefined
  | JArr ts => JObj [("listValue", JObj [("values", JArr (map tagged ts))])]
  | JObj kvs =>
      JObj [("structValue",
             JObj [("fields",
                    JObj (map (fun kv => match kv with
                                         | (k, v) => (k, tagged v)
                                         end) kvs))])]
  end.

(** The Struct of a plain-data object. *)
Definition tagged_struct (t : jsval) : jsval :=
  match t with
  | JObj kvs =>
      JObj [("fields",
             JObj (map (fun kv => match kv with
                                  | (k, v) => (k, tagged v)
                                  end) kvs))]
  | _ => JPrim VUndefined
  end.

(** No object of the tree has a key [__proto__]. *)
Fixpoint no_proto_key (t : jsval) : bool :=
  match t with
  | JPrim _ => true
  | JArr xs => forallb no_proto_key xs
  | JObj props =>
      forallb (fun kv => match kv with
                         | (k, v) => negb (String.eqb k "__proto__") && no_proto_key v
                         end) props
  end.

(** The nesting depth of a created value. *)
Fixpoint depth (t : jsval) : nat :=
  match t with
  | JPrim _ => 0
  | JArr xs => S (foldr Nat.max 0 (map depth xs))
  | JObj props =>
      S (foldr Nat.max 0 (map (fun kv => match kv with
                                         | (_, v) => depth v
                                         end) props))
  end.

(** The tags [encodeValue_] uses. *)
Definition tags : list string :=
  [ "nullValue"; "boolValue"; "numberValue"; "stringValue"; "listValue";
    "blobValue"; "structValue" ].

(** What the structural encoding gives for a value, with [n] levels of
    fuel. *)
Definition encodes (h : heap) (this : ObjectToStructConverter) (n : nat)
    (seen : gset loc) (v : value) : Prop :=
  ∀ st t,
    seenObjects st = seen →
    cache_sound h (isPlainObjectCache st) →
    plain_data_tree n h seen v = Some t →
    no_proto_key t = true →
    ∃ st',
      encodeValue_ h this n v st = (Ret (tagged t), st') ∧
      seenObjects st' = seen ∧
      cache_sound h (isPlainObjectCache st').

(** An array that holds itself and a list that holds it. *)
Definition heap_cyclic_array : gmap nat object :=
  {[ 1 := OArray [VRef 1; VNull]; 2 := OArray [VString "x"; VRef 1] ]}.

(** [null], a boolean, a number or a string. *)
Definition is_primitive (v : value) : bool :=
  match v with
  | VNull | VBool _ | VNumber _ | VString _ => true
  | _ => false
  end.

(** A class instance with data members only, one of them [undefined]. *)
Definition flat_class_instance : ordinary :=
  mkOrdinary (ProtoOther (Some (mkConstructor true (Some false) true))
                [("shared", VString "s")])
    [ mkProperty "name" true (VString "x");
      mkProperty "size" true (VNumber five);
      mkProperty "gone" true VUndefined ]
    (Some "[object Object]").

(** A prototype whose [constructor] is an arrow function: [constr
    instanceof constr] throws. *)
Definition object_with_arrow_constructor : object :=
  OOrdinary (mkOrdinary (ProtoOther (Some (mkConstructor true None true)) [])
               [] (Some "[object Object]")).

(** * Properties *)

(** ** The classifier *)

Lemma isPlainObject_cached (h : heap) (x : loc) (st : state) (b : bool) :
  isPlainObjectCache st !! x = Some b → isPlainObject h x st = (Ret b, st).
Proof.
  intros Hc. unfold isPlainObject, bind, cache_get. by rewrite Hc.
Qed.

(** A call that returns either found the answer in the cache, or took it
    from the prototype and stored it; [seenObjects] is not touched. *)
Lemma isPlainObject_Ret (h : heap) (x : loc) (st st' : state) (b : bool) :
  isPlainObject h x st = (Ret b, st') →
  seenObjects st' = seenObjects st ∧
  ((isPlainObjectCache st !! x = Some b ∧ st' = st) ∨
   (isPlainObjectCache st !! x = None ∧
    (∃ o, h !! x = Some o ∧ classify (getPrototypeOf o) = Ret b) ∧
    isPlainObjectCache st' = <[x:=b]> (isPlainObjectCache st))).
Proof.
  unfold isPlainObject, bind, cache_get, cache_set, ret, throw, unmodelled.
  destruct (isPlainObjectCache st !! x) as [c|] eqn:Hc.
  - intros [= -> ->]. auto.
  - destruct (h !! x) as [o|] eqn:Ho; [|done].
    assert (Hfresh : ∀ b0 st0,
      classify (getPrototypeOf o) = Ret b0 →
      (Ret b0, mkState (seenObjects st) (<[x:=b0]> (isPlainObjectCache st)))
        = (Ret b, st0) →
      seenObjects st0 = seenObjects st ∧
      ((None = Some b ∧ st0 = st) ∨
       (None = @None bool ∧
        (∃ o0, Some o = Some o0 ∧ classify (getPrototypeOf o0) = Ret b) ∧
        isPlainObjectCache st0 = <[x:=b]> (isPlainObjectCache st)))).
    { intros b0 st0 Hcl [= -> <-]. simpl. eauto 10. }
    unfold classify in Hfresh.
    destruct (getPrototypeOf o) as [| |[constr|] keys]; simpl.
    1,2,4: by apply Hfresh.
    destruct (ctor_typeof_function constr); simpl; [|by apply Hfresh].
    destruct (ctor_instanceof_self constr) as [inst|]; [|done].
    destruct (inst && ctor_tag_Function constr) eqn:Hb; simpl; by apply Hfresh.
Qed.

(** The first call on an object returns what its prototype says, unless
    the [instanceof] test throws. *)
Lemma isPlainObject_returns (h : heap) (x : loc) (o : object) (st : state) (b : bool) :
  h !! x = Some o → classify (getPrototypeOf o) = Ret b →
  isPlainObjectCache st !! x = None →
  isPlainObject h x st
    = (Ret b, mkState (seenObjects st) (<[x:=b]> (isPlainObjectCache st))).
Proof.
  intros Hx Hb Hc. unfold isPlainObject, bind, cache_get. rewrite Hc, Hx.
  unfold classify in Hb.
  destruct (getPrototypeOf o) as [| |[c|] keys]; try by injection Hb as <-.
  destruct (ctor_typeof_function c); [|by injection Hb as <-].
  destruct (ctor_instanceof_self c) as [inst|]; [|done].
  injection Hb as <-. by destruct (inst && ctor_tag_Function c).
Qed.

(** C9: a call of [isPlainObject] on [x] that returns [b] leaves [b] in the
    cache under the identity [x] and touches no other entry, and from then
    on every call on [x] returns [b] again out of the cache alone, whatever
    the heap has become and whatever was cached for other identities in
    between, without changing the state: the classification of [x] is
    computed at most once. *)
Theorem isPlainObject_memoized (h : heap) (x : loc) (st st' : state) (b : bool) :
  isPlainObject h x st = (Ret b, st') →
  isPlainObjectCache st' !! x = Some b ∧
  (∀ y, y ≠ x → isPlainObjectCache st' !! y = isPlainObjectCache st !! y) ∧
  (∀ (h' : heap) (st'' : state),
     isPlainObjectCache st' ⊆ isPlainObjectCache st'' →
     isPlainObject h' x st'' = (Ret b, st'')).
Proof.
  intros Hcall.
  destruct (isPlainObject_Ret _ _ _ _ _ Hcall) as [_ [[Hc ->]|(Hc & _ & Hst')]].
  - split; [done|]. split; [done|].
    intros h' st'' Hsub. apply isPlainObject_cached.
    by eapply lookup_weaken.
  - assert (Hx : isPlainObjectCache st' !! x = Some b)
      by (rewrite Hst'; apply lookup_insert_eq).
    split; [done|]. split.
    + intros y Hy. rewrite Hst'. by apply lookup_insert_ne.
    + intros h' st'' Hsub. apply isPlainObject_cached.
      by eapply lookup_weaken.
Qed.

(** The call on a class instance computes [false] once; the second call
    answers from the cache even on an empty heap. *)
Lemma isPlainObject_memoized_witness :
  isPlainObject {[ 1 := class_instance ]} 1 no_state
    = (Ret false, mkState ∅ {[ 1 := false ]}) ∧
  isPlainObject ∅ 1 (mkState ∅ {[ 1 := false ]})
    = (Ret false, mkState ∅ {[ 1 := false ]}).
Proof.
  assert (H : isPlainObject {[ 1 := class_instance ]} 1 no_state
              = (Ret false, mkState ∅ {[ 1 := false ]})) by reflexivity.
  split; [exact H|].
  exact (proj2 (proj2 (isPlainObject_memoized _ _ _ _ _ H)) ∅ _ (reflexivity _)).
Defined.

(** ** The state monad *)

Lemma bind_Ret {A B : Type} (m : M A) (k : A → M B) (st st' : state) (b : B) :
  (x <- m ;; k x) st = (Ret b, st') →
  ∃ a st1, m st = (Ret a, st1) ∧ k a st1 = (Ret b, st').
Proof.
  unfold bind. destruct (m st) as [[a|e| |] st1]; try done. eauto.
Qed.

Lemma bind_Ret_intro {A B : Type} (m : M A) (k : A → M B) (st st1 : state) (a : A) :
  m st = (Ret a, st1) → (x <- m ;; k x) st = k a st1.
Proof. unfold bind. by intros ->. Qed.

(** An outcome that is not a normal completion passes through [bind]. *)
Lemma bind_abrupt {A B : Type} (m : M A) (k : A → M B) (st st1 : state)
    (r : outcome A) :
  m st = (r, st1) → (∀ a, r ≠ Ret a) →
  ∃ r' : outcome B, (x <- m ;; k x) st = (r', st1) ∧ (∀ b, r' ≠ Ret b) ∧
    (∀ e, r = Throw e → r' = Throw e).
Proof.
  unfold bind. intros -> Hr. destruct r as [a|e| |].
  - by destruct (Hr a).
  - exists (Throw e). split; [done|]. split; [done|]. by intros e0 [= ->].
  - exists Unmodelled. split; [done|]. by split.
  - exists OutOfFuel. split; [done|]. by split.
Qed.

Tactic Notation "bind_inv" hyp(H) "as" simple_intropattern(a)
    simple_intropattern(s) ident(H1) :=
  apply bind_Ret in H; destruct H as (a & s & H1 & H).

(** ** [Array.prototype.map] and the for-in loop of [convert] *)

Section Loops.
Context {A B : Type} (f : A → M B) (P : state → Prop).
Hypothesis f_keeps : ∀ x s y s', P s → f x s = (Ret y, s') → P s'.

(** [xs.map(f)] returns when [f] returns on every element; the results
    come in the order of the elements. *)
Lemma array_map_Ret (xs : list A) (st st' : state) (ys : list B) :
  P st → array_map f xs st = (Ret ys, st') →
  P st' ∧ Forall2 (fun x y => ∃ s s', P s ∧ f x s = (Ret y, s')) xs ys.
Proof.
  revert st ys. induction xs as [|x xs IH]; intros st ys HP; simpl.
  - intros [= <- <-]. by split.
  - intros H. bind_inv H as y s1 Hy. bind_inv H as ys' s2 Hys.
    injection H as <- <-.
    pose proof (f_keeps _ _ _ _ HP Hy) as HP1.
    destruct (IH _ _ HP1 Hys) as [HP2 Hall].
    split; [done|]. constructor; eauto.
Qed.

(** The same with the results described by [Q]: if [f] returns on each
    element, so does the map. *)
Lemma array_map_run (Q : A → B → Prop) (xs : list A) (st : state) :
  P st →
  Forall (fun x => ∀ s, P s → ∃ y s', f x s = (Ret y, s') ∧ P s' ∧ Q x y) xs →
  ∃ ys st', array_map f xs st = (Ret ys, st') ∧ P st' ∧ Forall2 Q xs ys.
Proof.
  intros HP Hall. revert st HP.
  induction Hall as [|x xs Hx _ IH]; intros st HP; simpl.
  - exists [], st. by repeat split.
  - destruct (Hx _ HP) as (y & s1 & Hy & HP1 & HQ).
    destruct (IH _ HP1) as (ys & s2 & Hys & HP2 & HQs).
    exists (y :: ys), s2. split; [|by split; [|constructor]].
    rewrite (bind_Ret_intro _ _ _ _ _ Hy), (bind_Ret_intro _ _ _ _ _ Hys).
    reflexivity.
Qed.
End Loops.

Section ConvertLoop.
Context (encode : value → M jsval) (P : state → Prop) (o : ordinary).
Hypothesis encode_keeps : ∀ x s y s', P s → encode x s = (Ret y, s') → P s'.

(** When the loop of [convert] returns, every member it visited was
    encoded, and [fields] received the results in the order of the
    visit. *)
Lemma convert_loop_Ret (keys : list string) (fields fields' : list (string * jsval))
    (st st' : state) :
  P st → convert_loop encode o keys fields st = (Ret fields', st') →
  P st' ∧
  ∃ encoded,
    Forall2 (fun kv e => ∃ s s', P s ∧ encode kv.2 s = (Ret e, s'))
            (visited_members o keys) encoded ∧
    assign_all fields (zip (visited_members o keys).*1 encoded) = Ret fields'.
Proof.
  revert fields st. induction keys as [|prop keys IH]; intros fields st HP; simpl.
  - intros [= <- <-]. split; [done|]. exists []. by split.
  - destruct (hasOwnProperty o prop); [|by apply IH].
    destruct (is_undefined (obj_get o prop)); [by apply IH|].
    intros H. bind_inv H as y s1 Hy. bind_inv H as fields1 s2 Hf.
    unfold lift in Hf. injection Hf as Hf <-.
    pose proof (encode_keeps _ _ _ _ HP Hy) as HP1.
    destruct (IH _ _ HP1 H) as (HP2 & encoded & Hall & Hassign).
    split; [done|]. exists (y :: encoded). split.
    + constructor; eauto.
    + simpl. by rewrite Hf.
Qed.

(** Conversely the loop returns when [encode] returns on every member it
    visits and the assignments go through. *)
Lemma convert_loop_run (Q : value → jsval → Prop) (keys : list string)
    (fields : list (string * jsval)) (st : state) :
  P st →
  Forall (fun kv => ∀ s, P s →
            ∃ y s', encode kv.2 s = (Ret y, s') ∧ P s' ∧ Q kv.2 y)
         (visited_members o keys) →
  ∃ encoded,
    Forall2 (fun kv e => Q kv.2 e) (visited_members o keys) encoded ∧
    ∀ fields',
      assign_all fields (zip (visited_members o keys).*1 encoded) = Ret fields' →
      ∃ st', convert_loop encode o keys fields st = (Ret fields', st') ∧ P st'.
Proof.
  revert fields st. induction keys as [|prop keys IH]; intros fields st HP; simpl.
  - intros _. exists []. split; [constructor|]. intros fields' [= <-]. eauto.
  - destruct (hasOwnProperty o prop); [|by apply IH].
    destruct (is_undefined (obj_get o prop)); [by apply IH|].
    intros Hall. apply Forall_cons in Hall as [Hx Hall].
    destruct (Hx _ HP) as (y & s1 & Hy & HP1 & HQ). simpl in Hy.
    destruct (assign fields prop y) as [fields1| | |] eqn:Hassign.
    2-4: destruct (IH fields _ HP1 Hall) as (encoded & HQs & _);
         exists (y :: encoded); (split; [by constructor|]);
         intros fields'; simpl; by rewrite Hassign.
    destruct (IH fields1 _ HP1 Hall) as (encoded & HQs & Hrun).
    exists (y :: encoded). split; [by constructor|].
    intros fields'. simpl. rewrite Hassign. simpl. intros Hassigns.
    rewrite (bind_Ret_intro _ _ _ _ _ Hy).
    erewrite bind_Ret_intro by (unfold lift; rewrite Hassign; reflexivity).
    by apply Hrun.
Qed.
End ConvertLoop.

(** ** The encoder and [seenObjects] *)

Section EncoderFacts.
Variable h : heap.
Variable this : ObjectToStructConverter.

(** A [convert] that returns has removed [obj] from [seenObjects], and
    changed nothing else of it, provided the encoder of the members
    restores the set when it returns. *)
Lemma convert_with_Ret_seen (encode : value → M jsval) (obj : loc)
    (st st' : state) (r : jsval) :
  (∀ v s y s', encode v s = (Ret y, s') → seenObjects s' = seenObjects s) →
  convert_with h encode obj st = (Ret r, st') →
  seenObjects st' = seenObjects st ∖ {[obj]}.
Proof.
  intros Henc. unfold convert_with.
  destruct (h !! obj) as [[o| | |]|]; try done.
  intros H. bind_inv H as [] s1 Hadd. bind_inv H as fields s2 Hloop.
  bind_inv H as [] s3 Hdel.
  injection H as <- <-. injection Hadd as <-. injection Hdel as <-.
  eapply (convert_loop_Ret encode
            (fun s => seenObjects s = {[obj]} ∪ seenObjects st)) in Hloop as [HP _].
  - simpl. rewrite HP. set_solver.
  - intros x s y s' Hs Hx. by rewrite (Henc _ _ _ _ Hx).
  - reflexivity.
Qed.

(** An [encodeValue_] that returns leaves [seenObjects] as it found it. *)
Lemma encodeValue_Ret_seen (fuel : nat) (v : value) (st st' : state) (r : jsval) :
  encodeValue_ h this fuel v st = (Ret r, st') →
  seenObjects st' = seenObjects st.
Proof.
  revert v st st' r. induction fuel as [|fuel IH]; intros v st st' r; [done|].
  destruct v as [| |b|n|s|id|z|l]; simpl; try by intros [= <- <-].
  destruct (h !! l) as [[o|elems|bytes|]|] eqn:Hl; simpl; try by intros [= <- <-].
  - intros H. bind_inv H as plain s1 Hplain.
    apply isPlainObject_Ret in Hplain as [Hseen _].
    destruct plain.
    + bind_inv H as seen s2 Hhas. injection Hhas as <- <-.
      case_bool_decide as Hin.
      * destruct (negb (removeCircular this)); [done|].
        by injection H as <- <-.
      * bind_inv H as struct s3 Hconv. injection H as <- <-.
        apply convert_with_Ret_seen in Hconv; [|intros ????; apply IH].
        rewrite Hconv, Hseen. set_solver.
    + destruct (negb (stringify this)); [done|].
      destruct (o_String o); [|done]. by injection H as <- <-.
  - intros H. bind_inv H as values s1 Hmap. injection H as <- <-.
    by eapply (array_map_Ret (encodeValue_ h this fuel)
                 (fun s => seenObjects s = seenObjects st)) in Hmap as [HP _];
      [|intros x s y s' Hs Hx; rewrite (IH _ _ _ _ Hx)|].
Qed.

(** [convert], called from outside or from [encodeValue_]. *)
Lemma convert_Ret_seen (fuel : nat) (obj : loc) (st st' : state) (r : jsval) :
  convert h this fuel obj st = (Ret r, st') →
  seenObjects st' = seenObjects st ∖ {[obj]}.
Proof.
  apply convert_with_Ret_seen. intros v s y s'. apply encodeValue_Ret_seen.
Qed.
End EncoderFacts.

(** ** The tags of [encodeValue_] *)

Lemma encodeValue_array (h : heap) (this : ObjectToStructConverter) (fuel : nat)
    (l : loc) (elems : list value) (st : state) :
  h !! l = Some (OArray elems) →
  encodeValue_ h this (S fuel) (VRef l) st
    = (values <- array_map (encodeValue_ h this fuel) elems ;;
       ret (JObj [("listValue", JObj [("values", JArr values)])])) st.
Proof. intros Hl. simpl. by rewrite Hl. Qed.

(** C7: [encodeValue_] answers [null] with [{nullValue: 0}], a boolean with
    [{boolValue}], a number with [{numberValue}], a string with
    [{stringValue}], a Buffer with [{blobValue}] holding that very Buffer,
    and an array with [{listValue: {values}}] where [values] is the array
    mapped through [encodeValue_]: as many values as elements, the i-th
    the encoding of the i-th element.  Each result is an object with a
    single member, and the primitive cases leave the state alone. *)
Theorem encodeValue_tags (h : heap) (this : ObjectToStructConverter)
    (fuel : nat) (st : state) :
  encodeValue_ h this (S fuel) VNull st
    = (Ret (JObj [("nullValue", JPrim (VNumber zero))]), st) ∧
  (∀ b, encodeValue_ h this (S fuel) (VBool b) st
          = (Ret (JObj [("boolValue", JPrim (VBool b))]), st)) ∧
  (∀ n, encodeValue_ h this (S fuel) (VNumber n) st
          = (Ret (JObj [("numberValue", JPrim (VNumber n))]), st)) ∧
  (∀ s, encodeValue_ h this (S fuel) (VString s) st
          = (Ret (JObj [("stringValue", JPrim (VString s))]), st)) ∧
  (∀ l bytes, h !! l = Some (OBuffer bytes) →
     encodeValue_ h this (S fuel) (VRef l) st
       = (Ret (JObj [("blobValue", JPrim (VRef l))]), st)) ∧
  (∀ l elems, h !! l = Some (OArray elems) →
     encodeValue_ h this (S fuel) (VRef l) st
       = (values <- array_map (encodeValue_ h this fuel) elems ;;
          ret (JObj [("listValue", JObj [("values", JArr values)])])) st ∧
     ∀ r st', encodeValue_ h this (S fuel) (VRef l) st = (Ret r, st') →
       ∃ values,
         r = JObj [("listValue", JObj [("values", JArr values)])] ∧
         Forall2 (fun x y => ∃ s s', seenObjects s = seenObjects st ∧
                              encodeValue_ h this fuel x s = (Ret y, s'))
                 elems values).
Proof.
  do 4 (split; [done|]). split.
  - intros l bytes Hl. simpl. by rewrite Hl.
  - intros l elems Hl.
    pose proof (encodeValue_array h this fuel l elems st Hl) as Heq.
    split; [done|]. intros r st'. rewrite Heq. intros H.
    bind_inv H as values s1 Hmap. injection H as <- <-.
    exists values. split; [done|].
    eapply (array_map_Ret (encodeValue_ h this fuel)
              (fun s => seenObjects s = seenObjects st)) in Hmap as [_ Hall];
      [done| |done].
    intros x s y s' Hs Hx. by rewrite (encodeValue_Ret_seen _ _ _ _ _ _ _ Hx).
Qed.

(** The array [[1, "a"]] at location 2 and a Buffer at location 1. *)
Lemma encodeValue_tags_witness :
  let h : heap := {[ 1 := OBuffer [7%N]; 2 := OArray [VNumber one; VString "a"] ]} in
  encodeValue_ h default_converter 2 (VRef 1) no_state
    = (Ret (JObj [("blobValue", JPrim (VRef 1))]), no_state) ∧
  encodeValue_ h default_converter 2 (VRef 2) no_state
    = (Ret (JObj [("listValue", JObj [("values",
         JArr [ JObj [("numberValue", JPrim (VNumber one))];
                JObj [("stringValue", JPrim (VString "a"))] ])])]), no_state).
Proof.
  intros h.
  pose proof (encodeValue_tags h default_converter 1 no_state)
    as (_ & _ & _ & _ & Hblob & Hlist).
  split.
  - exact (Hblob 1 [7%N] eq_refl).
  - exact (eq_trans (proj1 (Hlist 2 [VNumber one; VString "a"] eq_refl)) eq_refl).
Defined.

(** ** Values of type function, symbol or bigint *)

Lemma encodeValue_unrecognized (h : heap) (this : ObjectToStructConverter)
    (fuel : nat) (v : value) (t : string) (st : state) :
  typeof h v = Some t → t ∈ ["function"; "symbol"; "bigint"] →
  encodeValue_ h this (S fuel) v st = (Ret (JPrim VUndefined), st).
Proof.
  intros Ht Hin.
  destruct v as [| |b|n|s|id|z|l]; simpl in *.
  1-5: injection Ht as <-; set_solver.
  1-2: done.
  destruct (h !! l) as [[o|elems|bytes|]|]; simpl; try done;
    injection Ht as <-; set_solver.
Qed.

(** ** Circular references *)

(** What [encodeValue_] does with an object that [isPlainObject] calls
    plain and [seenObjects] holds. *)
Lemma encodeValue_circular (h : heap) (this : ObjectToStructConverter)
    (fuel : nat) (l : loc) (o : ordinary) (st st1 : state) :
  h !! l = Some (OOrdinary o) →
  isPlainObject h l st = (Ret true, st1) →
  l ∈ seenObjects st →
  encodeValue_ h this (S fuel) (VRef l) st
    = (if removeCircular this
       then Ret (JObj [("stringValue", JPrim (VString "[Circular]"))])
       else Throw (ThrownError circular_message), st1).
Proof.
  intros Hl Hplain Hseen. simpl. rewrite Hl. simpl.
  rewrite (bind_Ret_intro _ _ _ _ _ Hplain).
  apply isPlainObject_Ret in Hplain as [Hs _].
  unfold seen_has. erewrite bind_Ret_intro by reflexivity.
  rewrite bool_decide_eq_true_2 by (by rewrite Hs).
  by destruct (removeCircular this).
Qed.

(** ** Opaque objects *)

(** What [encodeValue_] does with an object that is not an array, not a
    Buffer, and that [isPlainObject] does not call plain. *)
Lemma encodeValue_opaque (h : heap) (this : ObjectToStructConverter)
    (fuel : nat) (l : loc) (o : ordinary) (st st1 : state) :
  h !! l = Some (OOrdinary o) →
  isPlainObject h l st = (Ret false, st1) →
  encodeValue_ h this (S fuel) (VRef l) st
    = (if stringify this
       then match o_String o with
            | Some s => Ret (JObj [("stringValue", JPrim (VString s))])
            | None => Throw ThrownTypeError
            end
       else Throw (ThrownError ("Value of type object not recognized" +:+ ".")), st1).
Proof.
  intros Hl Hplain. simpl. rewrite Hl. simpl.
  rewrite (bind_Ret_intro _ _ _ _ _ Hplain).
  destruct (stringify this); simpl; [|done].
  by destruct (o_String o).
Qed.

(** ** Properties of objects: keys, lookups and assignments *)

Lemma mem_string_spec (k : string) (ks : list string) :
  mem_string k ks = true ↔ k ∈ ks.
Proof.
  unfold mem_string. rewrite existsb_exists. split.
  - intros (x & Hin & Heq). apply String.eqb_eq in Heq as ->.
    by apply list_elem_of_In.
  - intros Hin. exists k. split; [by apply list_elem_of_In|apply String.eqb_refl].
Qed.

Lemma mem_string_false (k : string) (ks : list string) :
  mem_string k ks = false ↔ k ∉ ks.
Proof.
  rewrite <- mem_string_spec. by destruct (mem_string k ks).
Qed.

Lemma prop_lookup_None (k : string) (props : list (string * jsval)) :
  prop_lookup k props = None ↔ k ∉ props.*1.
Proof.
  induction props as [|[k' v] props IH]; simpl.
  - split; [intros _; apply not_elem_of_nil|done].
  - rewrite not_elem_of_cons. destruct (String.eqb_spec k k') as [->|Hne].
    + split; [done|]. by intros [[] _].
    + rewrite IH. tauto.
Qed.

Lemma prop_lookup_Some_first (k : string) (v : jsval) (props : list (string * jsval)) :
  NoDup props.*1 → (k, v) ∈ props → prop_lookup k props = Some v.
Proof.
  induction props as [|[k' v'] props IH]; simpl; intros Hnd Hin.
  - by apply elem_of_nil in Hin.
  - apply NoDup_cons in Hnd as [Hk' Hnd].
    apply elem_of_cons in Hin as [[= <- <-]|Hin].
    + by rewrite String.eqb_refl.
    + destruct (String.eqb_spec k k') as [->|Hne]; [|by apply IH].
      destruct Hk'. apply list_elem_of_fmap. by exists (k', v).
Qed.

(** Assignments to keys that are new and not [__proto__] append the
    members in order; and assignments that all go through used no
    [__proto__] key. *)
Lemma assign_all_fresh (fields kvs : list (string * jsval)) :
  NoDup (fields.*1 ++ kvs.*1) →
  Forall (fun kv => kv.1 ≠ "__proto__") kvs →
  assign_all fields kvs = Ret (fields ++ kvs).
Proof.
  revert fields. induction kvs as [|[k v] kvs IH]; intros fields Hnd Hkeys; simpl.
  - by rewrite app_nil_r.
  - apply Forall_cons in Hkeys as [Hk Hkeys]. simpl in Hk.
    unfold assign. apply String.eqb_neq in Hk as ->.
    assert (Hfresh : prop_lookup k fields = None).
    { apply prop_lookup_None. apply NoDup_app in Hnd as (_ & Hdisj & _).
      intros Hin. apply (Hdisj _ Hin). simpl. apply elem_of_cons. by left. }
    rewrite Hfresh. simpl. rewrite IH.
    + by rewrite <- app_assoc.
    + rewrite fmap_app, <- app_assoc. done.
    + done.
Qed.

Lemma assign_all_Ret_keys (fields kvs fields' : list (string * jsval)) :
  assign_all fields kvs = Ret fields' →
  Forall (fun kv => kv.1 ≠ "__proto__") kvs.
Proof.
  revert fields. induction kvs as [|[k v] kvs IH]; intros fields; simpl.
  - constructor.
  - unfold assign. destruct (String.eqb_spec k "__proto__") as [->|Hne]; [done|].
    destruct (prop_lookup k fields); simpl; intros H; constructor; eauto.
Qed.

Lemma assign_all_Ret_fresh (fields kvs fields' : list (string * jsval)) :
  NoDup (fields.*1 ++ kvs.*1) →
  assign_all fields kvs = Ret fields' → fields' = fields ++ kvs.
Proof.
  intros Hnd H. pose proof (assign_all_Ret_keys _ _ _ H) as Hkeys.
  rewrite (assign_all_fresh _ _ Hnd Hkeys) in H. by injection H.
Qed.

Lemma hasOwnProperty_own (o : ordinary) (p : property) :
  p ∈ o_own o → hasOwnProperty o (p_key p) = true.
Proof.
  intros Hin. apply mem_string_spec. apply list_elem_of_fmap. by exists p.
Qed.

Lemma obj_get_own (o : ordinary) (p : property) :
  NoDup (p_key <$> o_own o) → p ∈ o_own o → obj_get o (p_key p) = p_value p.
Proof.
  unfold obj_get. induction (o_own o) as [|q ps IH]; simpl; intros Hnd Hin.
  - by apply elem_of_nil in Hin.
  - apply NoDup_cons in Hnd as [Hq Hnd].
    apply elem_of_cons in Hin as [->|Hin].
    + by rewrite String.eqb_refl.
    + destruct (String.eqb_spec (p_key p) (p_key q)) as [Heq|Hne]; [|by apply IH].
      destruct Hq. rewrite <- Heq. apply list_elem_of_fmap. by exists p.
Qed.

(** Of the keys for-in visits, the loop of [convert] passes the own ones
    whose value is not [undefined]; the inherited ones stop at the
    [hasOwnProperty] test. *)
Lemma visited_members_for_in (o : ordinary) :
  NoDup (p_key <$> o_own o) →
  visited_members o (for_in_keys o)
    = (fun p => (p_key p, p_value p)) <$> encodable_members o.
Proof.
  intros Hnd. unfold visited_members, for_in_keys, encodable_members.
  rewrite omap_app.
  match goal with |- _ ++ ?inherited = _ =>
    assert (Hinh : inherited = []); [|rewrite Hinh, app_nil_r] end.
  { destruct (o_proto o) as [| |c keys]; try done.
    induction keys as [|[k v] keys IH]; [done|].
    rewrite fmap_cons, filter_cons. cbn [fst]. case_decide as Hk; [|done].
    cbn [omap list_omap]. unfold hasOwnProperty at 1. rewrite Hk. exact IH. }
  assert (Hgen : ∀ ps, ps ⊆ o_own o →
    omap (fun prop => if hasOwnProperty o prop
                      then if is_undefined (obj_get o prop) then None
                           else Some (prop, obj_get o prop)
                      else None)
         (p_key <$> filter (fun p => p_enumerable p = true) ps)
    = (fun p => (p_key p, p_value p)) <$>
        filter (fun p => p_enumerable p = true ∧ is_undefined (p_value p) = false) ps).
  { induction ps as [|p ps IH]; intros Hsub; [done|].
    assert (Hp : p ∈ o_own o) by (apply Hsub; by left).
    assert (Hps : ps ⊆ o_own o) by (intros x Hx; apply Hsub; by right).
    rewrite !filter_cons.
    destruct (p_enumerable p) eqn:He; simpl.
    - rewrite (hasOwnProperty_own _ _ Hp), (obj_get_own _ _ Hnd Hp).
      destruct (is_undefined (p_value p)) eqn:Hu; simpl.
      + by apply IH.
      + f_equal. by apply IH.
    - by apply IH. }
  by apply Hgen.
Qed.

(** ** What [convert] returns *)

Lemma encodable_members_NoDup (o : ordinary) :
  NoDup (p_key <$> o_own o) → NoDup (p_key <$> encodable_members o).
Proof.
  intros Hnd. eapply sublist_NoDup; [exact Hnd|].
  apply fmap_sublist, sublist_filter.
Qed.

(** A [convert] that returns gives [{fields}] with one member per own
    enumerable property of [obj] whose value is not [undefined], in their
    order, each holding what [encodeValue_] returned for that value while
    [obj] was in [seenObjects]. *)
Lemma convert_Ret_fields (h : heap) (this : ObjectToStructConverter) (fuel : nat)
    (obj : loc) (o : ordinary) (st st' : state) (r : jsval) :
  h !! obj = Some (OOrdinary o) →
  NoDup (p_key <$> o_own o) →
  convert h this fuel obj st = (Ret r, st') →
  ∃ encoded,
    r = JObj [("fields", JObj (zip (p_key <$> encodable_members o) encoded))] ∧
    Forall2 (fun p e => ∃ s s', seenObjects s = {[obj]} ∪ seenObjects st ∧
                         encodeValue_ h this fuel (p_value p) s = (Ret e, s'))
            (encodable_members o) encoded.
Proof.
  intros Hobj Hnd. unfold convert, convert_with. rewrite Hobj.
  intros H. bind_inv H as [] s1 Hadd. bind_inv H as fields s2 Hloop.
  bind_inv H as [] s3 Hdel. injection H as <- <-. injection Hadd as <-.
  eapply (convert_loop_Ret (encodeValue_ h this fuel)
            (fun s => seenObjects s = {[obj]} ∪ seenObjects st)) in Hloop
    as (_ & encoded & Hall & Hassign); [| |done].
  2: { intros x s y s' Hs Hx. by rewrite (encodeValue_Ret_seen _ _ _ _ _ _ _ Hx). }
  rewrite (visited_members_for_in _ Hnd) in Hall, Hassign.
  apply Forall2_fmap_l in Hall. simpl in Hall.
  rewrite <- list_fmap_compose in Hassign.
  change (fst ∘ (fun p => (p_key p, p_value p))) with p_key in Hassign.
  exists encoded. split; [|done].
  apply assign_all_Ret_fresh in Hassign; [by rewrite Hassign|].
  simpl. rewrite fst_zip.
  - by apply encodable_members_NoDup.
  - rewrite length_fmap. by rewrite (Forall2_length _ _ _ Hall).
Qed.

(** The loop of [convert] is the map of [encode] over the members it
    visits, as long as every assignment creates a new member: the outcome
    and the state are those of the map, the keys follow the visit. *)
Lemma convert_loop_map (encode : value → M jsval) (o : ordinary)
    (keys : list string) :
  ∀ (fields : list (string * jsval)) (st : state),
    NoDup (fields.*1 ++ (visited_members o keys).*1) →
    Forall (fun kv => kv.1 ≠ "__proto__") (visited_members o keys) →
    convert_loop encode o keys fields st
      = (encoded <- array_map encode (visited_members o keys).*2 ;;
         ret (fields ++ zip (visited_members o keys).*1 encoded)) st.
Proof.
  induction keys as [|prop keys IH]; intros fields st Hnd Hkeys.
  - simpl. unfold bind, ret. simpl. by rewrite app_nil_r.
  - cbn [convert_loop]. unfold visited_members in *. cbn [omap list_omap] in *.
    destruct (hasOwnProperty o prop); [|by apply IH].
    destruct (is_undefined (obj_get o prop)); [by apply IH|].
    rewrite !fmap_cons in *. cbn [fst snd array_map] in *.
    apply Forall_cons in Hkeys as [Hk Hkeys]. simpl in Hk.
    unfold bind, lift.
    destruct (encode (obj_get o prop) st) as [[y|e| |] s1]; try done.
    assert (Hassign : assign fields prop y = Ret (fields ++ [(prop, y)])).
    { unfold assign. apply String.eqb_neq in Hk as ->.
      assert (Hfresh : prop_lookup prop fields = None).
      { apply prop_lookup_None. apply NoDup_app in Hnd as (_ & Hdisj & _).
        intros Hin. apply (Hdisj _ Hin). by left. }
      by rewrite Hfresh. }
    rewrite Hassign.
    rewrite IH; [|by rewrite fmap_app, <- app_assoc|done].
    unfold bind, ret.
    destruct (array_map encode _ s1) as [[ys|e'| |] s2]; try done.
    simpl. by rewrite <- app_assoc.
Qed.

(** On the object with the inherited member, for-in does visit the key
    [inherited] and [obj["inherited"]] is ["i"], not [undefined]: it is the
    [hasOwnProperty] test that keeps it out of [fields]. *)
Lemma inherited_member_visited_and_read :
  for_in_keys (mkOrdinary
       (ProtoOther (Some (mkConstructor true (Some false) true))
                   [("inherited", VString "i")])
       [ mkProperty "a" true (VNumber one);
         mkProperty "hidden" false (VNumber five);
         mkProperty "b" true VUndefined ]
       (Some "[object Object]"))
    = ["a"; "b"; "inherited"] ∧
  obj_get (mkOrdinary
       (ProtoOther (Some (mkConstructor true (Some false) true))
                   [("inherited", VString "i")])
       [ mkProperty "a" true (VNumber one);
         mkProperty "hidden" false (VNumber five);
         mkProperty "b" true VUndefined ]
       (Some "[object Object]")) "inherited"
    = VString "i".
Proof. by split. Qed.

(** C5: [convert] visits the keys of for-in, passes only those [obj]
    owns, skips the ones whose value is [undefined] and stores under each
    of the others what [encodeValue_] returns for its value.  For an
    object whose keys to store are not [__proto__], the whole call is:
    enter [obj] in [seenObjects], encode the values of the own enumerable
    members that are not [undefined], in order, take [obj] out, return
    [{fields}] with exactly those keys in that order; an inherited key
    never gets there, whatever value it has.  So a [convert] that returns
    gives exactly those keys, each with the result of [encodeValue_].  On
    [{a: 1, b: undefined}] it returns [{fields: {a: {numberValue: 1}}}],
    and so it does on an object that also has a member that is not
    enumerable and inherits an enumerable member [inherited: "i"]. *)
Theorem convert_own_defined_keys :
  (∀ (h : heap) (this : ObjectToStructConverter) (fuel : nat) (obj : loc)
     (o : ordinary) (st : state),
     h !! obj = Some (OOrdinary o) →
     NoDup (p_key <$> o_own o) →
     Forall (fun p => p_key p ≠ "__proto__") (encodable_members o) →
     convert h this fuel obj st
       = (_ <- seen_add obj ;;
          encoded <- array_map (encodeValue_ h this fuel)
                               (p_value <$> encodable_members o) ;;
          _ <- seen_delete obj ;;
          ret (JObj [("fields",
                      JObj (zip (p_key <$> encodable_members o) encoded))])) st) ∧
  (∀ (h : heap) (this : ObjectToStructConverter) (fuel : nat) (obj : loc)
     (o : ordinary) (st st' : state) (r : jsval),
     h !! obj = Some (OOrdinary o) →
     NoDup (p_key <$> o_own o) →
     Forall (fun p => p_key p ≠ "__proto__") (encodable_members o) →
     convert h this fuel obj st = (Ret r, st') →
     ∃ fields,
       r = JObj [("fields", JObj fields)] ∧
       fields.*1 = p_key <$> encodable_members o ∧
       Forall2 (fun p kv => ∃ s s',
                  encodeValue_ h this fuel (p_value p) s = (Ret kv.2, s'))
               (encodable_members o) fields) ∧
  (∀ (this : ObjectToStructConverter) (fuel : nat),
     convert {[ 1 := literal [("a", VNumber one); ("b", VUndefined)] ]}
             this (S fuel) 1 no_state
       = (Ret (JObj [("fields",
                      JObj [("a", JObj [("numberValue", JPrim (VNumber one))])])]),
          no_state)) ∧
  (∀ (this : ObjectToStructConverter) (fuel : nat),
     convert {[ 1 := object_with_hidden_members ]} this (S fuel) 1 no_state
       = (Ret (JObj [("fields",
                      JObj [("a", JObj [("numberValue", JPrim (VNumber one))])])]),
          no_state)).
Proof.
  split; [|split; [|split; intros this fuel; reflexivity]].
  - intros h this fuel obj o st Hobj Hnd Hkeys.
    pose proof (visited_members_for_in _ Hnd) as Hvisited.
    assert (Hk : (visited_members o (for_in_keys o)).*1
                 = p_key <$> encodable_members o).
    { rewrite Hvisited, <- list_fmap_compose. done. }
    assert (Hv : (visited_members o (for_in_keys o)).*2
                 = p_value <$> encodable_members o).
    { rewrite Hvisited, <- list_fmap_compose. done. }
    unfold convert, convert_with. rewrite Hobj.
    unfold bind, seen_add.
    rewrite (convert_loop_map (encodeValue_ h this fuel) o (for_in_keys o) []).
    + rewrite Hk, Hv. unfold bind, ret.
      by destruct (array_map _ _ _) as [[ys|e| |] s1].
    + simpl. rewrite Hk. by apply encodable_members_NoDup.
    + rewrite Hvisited. apply Forall_fmap. exact Hkeys.
  - intros h this fuel obj o st st' r Hobj Hnd _ Hconv.
    destruct (convert_Ret_fields _ _ _ _ _ _ _ _ Hobj Hnd Hconv)
      as (encoded & -> & Hall).
    pose proof (Forall2_length _ _ _ Hall) as Hlen.
    eexists. split; [done|]. split.
    + apply fst_zip. rewrite length_fmap. lia.
    + apply Forall2_same_length_lookup. split.
      * rewrite length_zip, length_fmap. lia.
      * intros i p [k e] Hp Hke. apply lookup_zip_Some in Hke as [_ He]. simpl in *.
        destruct (Forall2_lookup_lr _ _ _ _ _ _ Hall Hp He) as (s & s' & _ & Henc).
        eauto.
Qed.

(** The object with the inherited member: the call is the map over its
    one member to encode, [a: 1]. *)
Lemma convert_own_defined_keys_witness :
  convert {[ 1 := object_with_hidden_members ]} default_converter 1 1 no_state
    = (_ <- seen_add 1 ;;
       encoded <- array_map (encodeValue_ {[ 1 := object_with_hidden_members ]}
                                          default_converter 1)
                            [VNumber one] ;;
       _ <- seen_delete 1 ;;
       ret (JObj [("fields", JObj (zip ["a"] encoded))])) no_state ∧
  ∃ fields,
    JObj [("fields", JObj [("a", JObj [("numberValue", JPrim (VNumber one))])])]
      = JObj [("fields", JObj fields)] ∧
    fields.*1 = ["a"].
Proof.
  pose (o := mkOrdinary
       (ProtoOther (Some (mkConstructor true (Some false) true))
                   [("inherited", VString "i")])
       [ mkProperty "a" true (VNumber one);
         mkProperty "hidden" false (VNumber five);
         mkProperty "b" true VUndefined ]
       (Some "[object Object]")).
  assert (Hobj : ({[ 1 := object_with_hidden_members ]} : heap) !! 1
                 = Some (OOrdinary o)) by reflexivity.
  assert (Hnd : NoDup (p_key <$> o_own o))
    by (apply (bool_decide_unpack _); reflexivity).
  assert (Hkeys : Forall (fun p => p_key p ≠ "__proto__") (encodable_members o))
    by (apply (bool_decide_unpack _); reflexivity).
  assert (Hconv : convert {[ 1 := object_with_hidden_members ]}
                    default_converter 1 1 no_state
    = (Ret (JObj [("fields",
                   JObj [("a", JObj [("numberValue", JPrim (VNumber one))])])]),
       no_state)) by reflexivity.
  split.
  - exact (proj1 convert_own_defined_keys _ default_converter 1 1 o no_state
             Hobj Hnd Hkeys).
  - destruct (proj1 (proj2 convert_own_defined_keys) _ _ _ _ _ _ _ _
                Hobj Hnd Hkeys Hconv)
      as (fields & Hr & Hfields & _).
    exists fields. split; [exact Hr|exact Hfields].
Defined.

(** C10: a value whose [typeof] is [function], [symbol] or [bigint]
    matches no [case] of [encodeValue_], which returns [undefined] for it
    and throws nothing; a [convert] that returns has stored [undefined]
    under the key of such a member.  So for [{f: function, s: symbol,
    n: bigint}]. *)
Theorem unrecognized_typeof_yields_undefined :
  (∀ (h : heap) (this : ObjectToStructConverter) (fuel : nat) (v : value)
     (t : string) (st : state),
     typeof h v = Some t → t ∈ ["function"; "symbol"; "bigint"] →
     encodeValue_ h this (S fuel) v st = (Ret (JPrim VUndefined), st)) ∧
  (∀ (h : heap) (this : ObjectToStructConverter) (fuel : nat) (obj : loc)
     (o : ordinary) (p : property) (t : string) (st st' : state) (r : jsval),
     h !! obj = Some (OOrdinary o) →
     NoDup (p_key <$> o_own o) →
     p ∈ o_own o → p_enumerable p = true →
     typeof h (p_value p) = Some t → t ∈ ["function"; "symbol"; "bigint"] →
     convert h this (S fuel) obj st = (Ret r, st') →
     ∃ fields,
       r = JObj [("fields", JObj fields)] ∧
       prop_lookup (p_key p) fields = Some (JPrim VUndefined)) ∧
  (∀ (this : ObjectToStructConverter) (fuel : nat),
     convert {[ 1 := literal [("f", VRef 2); ("s", VSymbol 0); ("n", VBigInt 10)];
                2 := OFunction ]}
             this (S fuel) 1 no_state
       = (Ret (JObj [("fields", JObj [ ("f", JPrim VUndefined);
                                       ("s", JPrim VUndefined);
                                       ("n", JPrim VUndefined) ])]),
          no_state)).
Proof.
  split; [exact encodeValue_unrecognized|]. split; [|intros; reflexivity].
  intros h this fuel obj o p t st st' r Hobj Hnd Hp He Ht Hin Hconv.
  destruct (convert_Ret_fields _ _ _ _ _ _ _ _ Hobj Hnd Hconv) as (encoded & -> & Hall).
  eexists. split; [done|].
  assert (Hmem : p ∈ encodable_members o).
  { apply list_elem_of_filter. split; [|done]. split; [done|].
    destruct (p_value p); try done. simpl in Ht. injection Ht as <-. set_solver. }
  apply list_elem_of_lookup in Hmem as [i Hi].
  destruct (Forall2_lookup_l _ _ _ _ _ Hall Hi) as (e & He' & s & s' & _ & Henc).
  rewrite (encodeValue_unrecognized _ _ _ _ _ _ Ht Hin) in Henc.
  injection Henc as <- _.
  apply prop_lookup_Some_first.
  - rewrite fst_zip; [by apply encodable_members_NoDup|].
    rewrite length_fmap. by rewrite (Forall2_length _ _ _ Hall).
  - apply list_elem_of_lookup. exists i. apply lookup_zip_Some. split; [|done].
    simpl. by rewrite list_lookup_fmap, Hi.
Qed.

(** The function at location 2 is encoded as [undefined]. *)
Lemma unrecognized_typeof_yields_undefined_witness :
  encodeValue_ {[ 2 := OFunction ]} default_converter 1 (VRef 2) no_state
    = (Ret (JPrim VUndefined), no_state).
Proof.
  apply (proj1 unrecognized_typeof_yields_undefined
           {[ 2 := OFunction ]} default_converter 0 (VRef 2) "function" no_state).
  - reflexivity.
  - apply (bool_decide_unpack _). reflexivity.
Defined.

(** C3: when [encodeValue_] meets an object that [isPlainObject] calls
    plain and that is in [seenObjects], it throws the circular-reference
    Error if [removeCircular] is false and returns
    [{stringValue: "[Circular]"}] if it is true.  For [o = {}; o.self = o]
    the conversion throws with the default options, and with
    [removeCircular: true] returns
    [{fields: {self: {stringValue: "[Circular]"}}}]. *)
Theorem circular_reference_policy :
  (∀ (h : heap) (this : ObjectToStructConverter) (fuel : nat) (l : loc)
     (o : ordinary) (st st1 : state),
     h !! l = Some (OOrdinary o) →
     isPlainObject h l st = (Ret true, st1) →
     l ∈ seenObjects st →
     encodeValue_ h this (S fuel) (VRef l) st
       = (if removeCircular this
          then Ret (JObj [("stringValue", JPrim (VString "[Circular]"))])
          else Throw (ThrownError circular_message), st1)) ∧
  (∀ fuel : nat,
     objToStruct (S fuel) {[ 1 := literal [("self", VRef 1)] ]} 1 None ∅
       = (Throw (ThrownError circular_message), {[ 1 := true ]}) ∧
     objToStruct (S fuel) {[ 1 := literal [("self", VRef 1)] ]} 1
                 (Some (mkConfig None None)) ∅
       = (Throw (ThrownError circular_message), {[ 1 := true ]}) ∧
     objToStruct (S fuel) {[ 1 := literal [("self", VRef 1)] ]} 1
                 (Some (mkConfig (Some true) None)) ∅
       = (Ret (JObj [("fields",
                      JObj [("self",
                             JObj [("stringValue", JPrim (VString "[Circular]"))])])]),
          {[ 1 := true ]})).
Proof.
  split; [exact encodeValue_circular|]. intros fuel. by repeat split.
Qed.

(** The object [o] with [o.self = o], met again while it is encoded. *)
Lemma circular_reference_policy_witness :
  encodeValue_ {[ 1 := literal [("self", VRef 1)] ]} default_converter 1 (VRef 1)
               (mkState {[ 1 ]} ∅)
    = (Throw (ThrownError circular_message), mkState {[ 1 ]} {[ 1 := true ]}).
Proof.
  apply (proj1 circular_reference_policy
           {[ 1 := literal [("self", VRef 1)] ]} default_converter 0 1
           (mkOrdinary ProtoObject [mkProperty "self" true (VRef 1)]
                       (Some "[object Object]"))
           (mkState {[ 1 ]} ∅) (mkState {[ 1 ]} {[ 1 := true ]})).
  - reflexivity.
  - reflexivity.
  - apply (bool_decide_unpack _). reflexivity.
Defined.

(** C4: when [encodeValue_] meets an object that is not an array, not a
    Buffer and that [isPlainObject] does not call plain, it throws an
    Error with the message [Value of type object not recognized.] if
    [stringify] is false, and returns [{stringValue: String(value)}] if it
    is true (a TypeError if that conversion throws).  So for a class
    instance, with the default options and with [stringify: true]. *)
Theorem opaque_type_policy :
  (∀ (h : heap) (this : ObjectToStructConverter) (fuel : nat) (l : loc)
     (o : ordinary) (st st1 : state),
     h !! l = Some (OOrdinary o) →
     isPlainObject h l st = (Ret false, st1) →
     encodeValue_ h this (S fuel) (VRef l) st
       = (if stringify this
          then match o_String o with
               | Some s => Ret (JObj [("stringValue", JPrim (VString s))])
               | None => Throw ThrownTypeError
               end
          else Throw (ThrownError ("Value of type object not recognized" +:+ ".")),
          st1)) ∧
  (∀ fuel : nat,
     objToStruct (S fuel) {[ 1 := literal [("x", VRef 2)]; 2 := class_instance ]}
                 1 None ∅
       = (Throw (ThrownError ("Value of type object not recognized" +:+ ".")),
          {[ 2 := false ]}) ∧
     objToStruct (S fuel) {[ 1 := literal [("x", VRef 2)]; 2 := class_instance ]}
                 1 (Some (mkConfig None (Some true))) ∅
       = (Ret (JObj [("fields",
                      JObj [("x",
                             JObj [("stringValue",
                                    JPrim (VString "[object Object]"))])])]),
          {[ 2 := false ]})).
Proof.
  split; [exact encodeValue_opaque|]. intros fuel. by repeat split.
Qed.

Lemma opaque_type_policy_witness :
  encodeValue_ {[ 2 := class_instance ]} default_converter 1 (VRef 2) no_state
    = (Throw (ThrownError ("Value of type object not recognized" +:+ ".")),
       mkState ∅ {[ 2 := false ]}).
Proof.
  apply (proj1 opaque_type_policy
           {[ 2 := class_instance ]} default_converter 0 2
           (mkOrdinary (ProtoOther (Some (mkConstructor true (Some false) true)) [])
                       [] (Some "[object Object]"))
           no_state (mkState ∅ {[ 2 := false ]})).
  - reflexivity.
  - reflexivity.
Defined.

(** ** [undefined] inside a list *)

Lemma array_map_throws {A B : Type} (f : A → M B) (pre post : list A) (x : A)
    (st st1 st2 : state) (ys : list B) (e : thrown) :
  array_map f pre st = (Ret ys, st1) →
  f x st1 = (Throw e, st2) →
  array_map f (pre ++ x :: post) st = (Throw e, st2).
Proof.
  revert st ys. induction pre as [|a pre IH]; intros st ys; simpl.
  - intros [= <- <-] Hx. unfold bind. by rewrite Hx.
  - intros H Hx. bind_inv H as y s1 Hy. bind_inv H as ys' s2 Hys.
    injection H as <- <-.
    rewrite (bind_Ret_intro _ _ _ _ _ Hy).
    unfold bind at 1. by rewrite (IH _ _ Hys Hx).
Qed.

Lemma encodeValue_undefined_never_Ret (h : heap) (this : ObjectToStructConverter)
    (fuel : nat) (st st' : state) (y : jsval) :
  encodeValue_ h this fuel VUndefined st ≠ (Ret y, st').
Proof. by destruct fuel. Qed.

(** An array with an [undefined] element is never encoded. *)
Lemma encodeValue_list_undefined_never_Ret (h : heap)
    (this : ObjectToStructConverter) (fuel : nat) (l : loc) (elems : list value)
    (st st' : state) (y : jsval) :
  h !! l = Some (OArray elems) → VUndefined ∈ elems →
  encodeValue_ h this fuel (VRef l) st ≠ (Ret y, st').
Proof.
  intros Hl Hin. destruct fuel as [|fuel]; [done|].
  simpl. rewrite Hl. simpl.
  intros H. bind_inv H as values s1 Hmap.
  eapply (array_map_Ret (encodeValue_ h this fuel) (fun _ => True)) in Hmap
    as [_ Hall]; [|done|done].
  apply list_elem_of_lookup in Hin as [i Hi].
  destruct (Forall2_lookup_l _ _ _ _ _ Hall Hi) as (e & _ & s & s' & _ & Henc).
  by apply encodeValue_undefined_never_Ret in Henc.
Qed.

(** C6: [encodeValue_] throws the string
    [Value of type undefined not recognized.] on [undefined]; an array
    with an [undefined] element is therefore never encoded, and the
    encoding of the array throws that string as soon as the elements
    before the [undefined] one were encoded; a [convert] of an object with
    such an array as a member never returns.  On [{a: [1, undefined]}] the
    conversion throws that string. *)
Theorem undefined_in_list_fails :
  (∀ (h : heap) (this : ObjectToStructConverter) (fuel : nat) (st : state),
     encodeValue_ h this (S fuel) VUndefined st
       = (Throw (ThrownString ("Value of type undefined not recognized" +:+ ".")),
          st)) ∧
  (∀ (h : heap) (this : ObjectToStructConverter) (fuel : nat) (l : loc)
     (elems : list value) (st st' : state) (y : jsval),
     h !! l = Some (OArray elems) → VUndefined ∈ elems →
     encodeValue_ h this fuel (VRef l) st ≠ (Ret y, st')) ∧
  (∀ (h : heap) (this : ObjectToStructConverter) (fuel : nat) (l : loc)
     (pre post : list value) (st st1 : state) (ys : list jsval),
     h !! l = Some (OArray (pre ++ VUndefined :: post)) →
     array_map (encodeValue_ h this (S fuel)) pre st = (Ret ys, st1) →
     encodeValue_ h this (S (S fuel)) (VRef l) st
       = (Throw (ThrownString ("Value of type undefined not recognized" +:+ ".")),
          st1)) ∧
  (∀ (h : heap) (this : ObjectToStructConverter) (fuel : nat) (obj l : loc)
     (o : ordinary) (p : property) (elems : list value) (st st' : state)
     (y : jsval),
     h !! obj = Some (OOrdinary o) → NoDup (p_key <$> o_own o) →
     p ∈ o_own o → p_enumerable p = true → p_value p = VRef l →
     h !! l = Some (OArray elems) → VUndefined ∈ elems →
     convert h this fuel obj st ≠ (Ret y, st')) ∧
  (∀ (this : ObjectToStructConverter) (fuel : nat),
     convert {[ 1 := literal [("a", VRef 2)];
                2 := OArray [VNumber one; VUndefined] ]}
             this (S (S fuel)) 1 no_state
       = (Throw (ThrownString ("Value of type undefined not recognized" +:+ ".")),
          mkState {[ 1 ]} ∅)).
Proof.
  split; [done|]. split; [exact encodeValue_list_undefined_never_Ret|]. split.
  { intros h this fuel l pre post st st1 ys Hl Hpre.
    rewrite (encodeValue_array _ _ _ _ _ _ Hl). unfold bind at 1.
    by rewrite (array_map_throws (encodeValue_ h this (S fuel)) pre post VUndefined
                  st st1 st1 ys
                  (ThrownString "Value of type undefined not recognized.")
                  Hpre eq_refl). }
  split; [|intros; reflexivity].
  intros h this fuel obj l o p elems st st' y Hobj Hnd Hp He Hv Hl Hin Hconv.
  destruct (convert_Ret_fields _ _ _ _ _ _ _ _ Hobj Hnd Hconv) as (encoded & _ & Hall).
  assert (Hmem : p ∈ encodable_members o).
  { apply list_elem_of_filter. split; [|done]. split; [done|]. by rewrite Hv. }
  apply list_elem_of_lookup in Hmem as [i Hi].
  destruct (Forall2_lookup_l _ _ _ _ _ Hall Hi) as (e & _ & s & s' & _ & Henc).
  rewrite Hv in Henc.
  by eapply encodeValue_list_undefined_never_Ret in Henc.
Qed.

(** The list [[1, undefined]]: its first element is encoded, the second
    throws. *)
Lemma undefined_in_list_fails_witness :
  encodeValue_ {[ 2 := OArray [VNumber one; VUndefined] ]} default_converter 2
               (VRef 2) no_state
    = (Throw (ThrownString ("Value of type undefined not recognized" +:+ ".")),
       no_state).
Proof.
  apply (proj1 (proj2 (proj2 undefined_in_list_fails))
           {[ 2 := OArray [VNumber one; VUndefined] ]} default_converter 0 2
           [VNumber one] [] no_state no_state
           [JObj [("numberValue", JPrim (VNumber one))]]).
  - reflexivity.
  - reflexivity.
Defined.

(** ** [seenObjects] when [convert] does not return *)

Lemma bind_inv_any {A B : Type} (m : M A) (k : A → M B) (st st' : state)
    (r : outcome B) :
  (x <- m ;; k x) st = (r, st') →
  (∃ a s1, m st = (Ret a, s1) ∧ k a s1 = (r, st')) ∨
  (∃ r0, m st = (r0, st') ∧ (∀ a, r0 ≠ Ret a) ∧ (∀ b, r ≠ Ret b)).
Proof.
  unfold bind. destruct (m st) as [[a|e| |] s1]; [by eauto| | |];
    intros [= <- <-]; right; eexists; by repeat split.
Qed.

Section SeenGrows.
Variable h : heap.
Variable this : ObjectToStructConverter.

Lemma array_map_seen_mono {A B : Type} (f : A → M B) (xs : list A)
    (st st' : state) (r : outcome (list B)) :
  (∀ x s r' s', f x s = (r', s') → seenObjects s ⊆ seenObjects s') →
  array_map f xs st = (r, st') → seenObjects st ⊆ seenObjects st'.
Proof.
  intros Hf. revert st r. induction xs as [|x xs IH]; intros st r; simpl.
  - by intros [= <- <-].
  - intros H. apply bind_inv_any in H as [(y & s1 & Hy & H)|(r0 & Hy & _)].
    + apply Hf in Hy.
      apply bind_inv_any in H as [(ys & s2 & Hys & H)|(r0 & Hys & _)].
      * injection H as <- <-. apply IH in Hys. set_solver.
      * apply IH in Hys. set_solver.
    + by apply Hf in Hy.
Qed.

Lemma convert_loop_seen_mono (encode : value → M jsval) (o : ordinary)
    (keys : list string) (fields : list (string * jsval)) (st st' : state)
    (r : outcome (list (string * jsval))) :
  (∀ x s r' s', encode x s = (r', s') → seenObjects s ⊆ seenObjects s') →
  convert_loop encode o keys fields st = (r, st') →
  seenObjects st ⊆ seenObjects st'.
Proof.
  intros Hf. revert fields st. induction keys as [|prop keys IH];
    intros fields st; simpl.
  - by intros [= <- <-].
  - destruct (hasOwnProperty o prop); [|by apply IH].
    destruct (is_undefined (obj_get o prop)); [by apply IH|].
    intros H. apply bind_inv_any in H as [(y & s1 & Hy & H)|(r0 & Hy & _)].
    + apply Hf in Hy.
      apply bind_inv_any in H as [(f1 & s2 & Hf1 & H)|(r0 & Hf1 & _)].
      * injection Hf1 as _ <-. apply IH in H. set_solver.
      * by injection Hf1 as _ <-.
    + by apply Hf in Hy.
Qed.

(** Whatever the outcome, [convert] leaves in [seenObjects] what was
    there apart from [obj]; and when it does not return, [obj] too. *)
Lemma convert_with_seen (encode : value → M jsval) (obj : loc) (o : ordinary)
    (st st' : state) (r : outcome jsval) :
  (∀ x s r' s', encode x s = (r', s') → seenObjects s ⊆ seenObjects s') →
  h !! obj = Some (OOrdinary o) →
  convert_with h encode obj st = (r, st') →
  seenObjects st ∖ {[obj]} ⊆ seenObjects st' ∧
  ((∀ y, r ≠ Ret y) → obj ∈ seenObjects st').
Proof.
  intros Hf Hobj. unfold convert_with. rewrite Hobj. intros H.
  apply bind_inv_any in H as [([] & s1 & Hadd & H)|(r0 & Hadd & Hr0 & _)];
    [|by injection Hadd as <- _; destruct (Hr0 tt)].
  injection Hadd as <-.
  apply bind_inv_any in H as [(fields & s2 & Hloop & H)|(r0 & Hloop & _)].
  - apply convert_loop_seen_mono in Hloop; [|done]. simpl in Hloop.
    apply bind_inv_any in H as [([] & s3 & Hdel & H)|(r0 & Hdel & Hr0 & _)];
      [|by injection Hdel as <- _; destruct (Hr0 tt)].
    injection Hdel as <-. injection H as <- <-. simpl.
    split; [set_solver|]. intros Hr. exfalso. by eapply Hr.
  - apply convert_loop_seen_mono in Hloop; [|done]. simpl in Hloop.
    split; [set_solver|]. intros _. set_solver.
Qed.

(** [encodeValue_] never takes anything out of [seenObjects]. *)
Lemma encodeValue_seen_mono (fuel : nat) (v : value) (st st' : state)
    (r : outcome jsval) :
  encodeValue_ h this fuel v st = (r, st') → seenObjects st ⊆ seenObjects st'.
Proof.
  revert v st st' r. induction fuel as [|fuel IH]; intros v st st' r;
    [by intros [= <- <-]|].
  destruct v as [| |b|n|s|id|z|l]; simpl; try by intros [= <- <-].
  destruct (h !! l) as [[o|elems|bytes|]|] eqn:Hl; simpl; try by intros [= <- <-].
  - intros H.
    assert (Hplain : ∀ b s1, isPlainObject h l st = (b, s1) →
              seenObjects s1 = seenObjects st).
    { intros b0 s1. unfold isPlainObject, bind, cache_get, cache_set, ret,
        throw, unmodelled.
      destruct (isPlainObjectCache st !! l); [by intros [= <- <-]|].
      rewrite Hl. simpl.
      destruct (o_proto o) as [| |[c|] keys]; try by intros [= <- <-].
      destruct (ctor_typeof_function c); [|by intros [= <- <-]].
      destruct (ctor_instanceof_self c) as [inst|]; [|by intros [= <- <-]].
      by destruct (inst && ctor_tag_Function c); intros [= <- <-]. }
    apply bind_inv_any in H as [(plain & s1 & Hp & H)|(r0 & Hp & _)];
      [|by rewrite (Hplain _ _ Hp)].
    apply Hplain in Hp. destruct plain.
    + apply bind_inv_any in H as [(seen & s2 & Hhas & H)|(r0 & Hhas & Hr0 & _)];
        [|by injection Hhas as <- _; destruct (Hr0 (bool_decide (l ∈ seenObjects s1)))].
      injection Hhas as <- <-. case_bool_decide as Hin.
      * destruct (negb (removeCircular this)); injection H as <- <-;
          by rewrite Hp.
      * apply bind_inv_any in H as [(struct & s3 & Hconv & H)|(r0 & Hconv & _)].
        -- injection H as <- <-.
           eapply convert_with_seen in Hconv as [Hsub _]; [| |done];
             [|intros ????; apply IH]. set_solver.
        -- eapply convert_with_seen in Hconv as [Hsub _]; [| |done];
             [|intros ????; apply IH]. set_solver.
    + destruct (negb (stringify this)); [by injection H as <- <-; rewrite Hp|].
      destruct (o_String o); injection H as <- <-; by rewrite Hp.
  - intros H. apply bind_inv_any in H as [(values & s1 & Hmap & H)|(r0 & Hmap & _)].
    + injection H as <- <-.
      eapply array_map_seen_mono in Hmap; [done|]. intros ????; apply IH.
    + eapply array_map_seen_mono in Hmap; [done|]. intros ????; apply IH.
Qed.

(** A [convert] that does not return leaves [obj] in [seenObjects]. *)
Lemma convert_abrupt_keeps_seen (fuel : nat) (obj : loc) (o : ordinary)
    (st st' : state) (r : outcome jsval) :
  h !! obj = Some (OOrdinary o) →
  convert h this fuel obj st = (r, st') →
  (∀ y, r ≠ Ret y) → obj ∈ seenObjects st'.
Proof.
  intros Hobj Hconv Hr.
  eapply convert_with_seen in Hconv as [_ Hin]; [by apply Hin| |done].
  intros ????; apply encodeValue_seen_mono.
Qed.
End SeenGrows.

(** C2 fails on the code: [convert] deletes [obj] from [seenObjects] after
    the loop only.  With [removeCircular: true], [convert(p)] for
    [p = {bad: new Foo()}] throws and leaves [p] in [seenObjects]; a later
    [convert({p: p})] on the same converter returns
    [{fields: {p: {stringValue: "[Circular]"}}}], where a new converter
    throws. *)
Theorem convert_throw_leaves_obj_seen :
  let this := new_ObjectToStructConverter (Some (mkConfig (Some true) None)) in
  let poisoned := mkState {[ 1 ]} {[ 2 := false ]} in
  convert heap_with_stale_entry this 2 1 no_state
    = (Throw (ThrownError "Value of type object not recognized."), poisoned) ∧
  1 ∈ seenObjects poisoned ∧
  convert heap_with_stale_entry this 3 3 poisoned
    = (Ret (JObj [("fields",
                   JObj [("p", JObj [("stringValue",
                                      JPrim (VString "[Circular]"))])])]),
       mkState {[ 1 ]} {[ 1 := true; 2 := false ]}) ∧
  convert heap_with_stale_entry this 3 3 no_state
    = (Throw (ThrownError "Value of type object not recognized."),
       mkState {[ 1; 3 ]} {[ 1 := true; 2 := false ]}).
Proof.
  intros this poisoned. split; [reflexivity|]. split.
  - apply (bool_decide_unpack _). reflexivity.
  - split; reflexivity.
Qed.

(** ** The decoder *)

Section DecoderLoops.
Context (decode : jsval → outcome jsval).

Lemma array_map_pure_Ret (xs ys : list jsval) :
  array_map_pure decode xs = Ret ys ↔ Forall2 (fun x y => decode x = Ret y) xs ys.
Proof.
  revert ys. induction xs as [|x xs IH]; intros ys; simpl.
  - split; [by intros [= <-]|]. intros H. by apply Forall2_nil_inv_l in H as ->.
  - split.
    + destruct (decode x) as [y| | |] eqn:Hx; try done. simpl.
      destruct (array_map_pure decode xs) as [ys'| | |] eqn:Hxs; try done.
      simpl. intros [= <-]. constructor; [done|]. by apply IH.
    + intros H. apply Forall2_cons_inv_l in H as (y & ys' & Hx & Hxs & ->).
      rewrite Hx. simpl. apply IH in Hxs. by rewrite Hxs.
Qed.
End DecoderLoops.

(** [decodeValue] on an object whose [kind] is the string [k]. *)
Lemma decodeValue_kind (fuel : nat) (props : list (string * jsval)) (k : string) :
  prop_lookup "kind" props = Some (JPrim (VString k)) →
  decodeValue (S fuel) (JObj props) =
    if String.eqb k "structValue" then
      obind (get_prop (JObj props) "structValue") (structToObj fuel)
    else if String.eqb k "nullValue" then Ret (JPrim VNull)
    else if String.eqb k "listValue" then
      obind (get_prop (JObj props) "listValue") (fun listValue =>
      obind (get_prop listValue "values") (fun values =>
        match values with
        | JArr xs =>
            obind (array_map_pure (decodeValue fuel) xs) (fun ys => Ret (JArr ys))
        | JPrim VUndefined | JPrim VNull => Throw ThrownTypeError
        | _ => Unmodelled
        end))
    else get_prop (JObj props) k.
Proof.
  intros Hk. cbn [decodeValue get_prop]. rewrite Hk. reflexivity.
Qed.

(** C8 as stated fails on the code: the values of the two examples have
    no [kind] member, so [value.kind] is [undefined], the [switch] takes
    its [default] and [value[undefined]] is [undefined].  The Struct
    decodes to [{p: undefined}], not [{p: {q: 5}}], and the list value to
    [undefined], not [["a", null]]. *)
Lemma decode_without_kind :
  (∀ fuel, structToObj (S fuel) struct_without_kind
           = Ret (JObj [("p", JPrim VUndefined)])) ∧
  ¬ (∃ fuel, structToObj fuel struct_without_kind
             = Ret (JObj [("p", JObj [("q", JPrim (VNumber five))])])) ∧
  (∀ fuel, decodeValue (S fuel) list_without_kind = Ret (JPrim VUndefined)) ∧
  ¬ (∃ fuel, decodeValue fuel list_without_kind
             = Ret (JArr [JPrim (VString "a"); JPrim VNull])).
Proof.
  split; [done|]. split; [by intros [[|fuel] H]|].
  split; [done|]. by intros [[|fuel] H].
Qed.

(** C8, amended: [decodeValue] dispatches on the [kind] member of the
    value.  With [kind] the string [structValue] it returns
    [structToObj(value.structValue)]; with [nullValue], [null]; with
    [listValue], the array of the decoded elements of
    [value.listValue.values], in order; with any other string, such as
    [boolValue], [numberValue], [stringValue] or [blobValue], the member of
    that name as it is.  The Struct
    [{fields: {p: {kind: "structValue", structValue: {fields: {q: {kind:
    "numberValue", numberValue: 5}}}}}}] decodes to [{p: {q: 5}}] and
    [{kind: "listValue", listValue: {values: [{kind: "stringValue",
    stringValue: "a"}, {kind: "nullValue", nullValue: 0}]}}] to
    [["a", null]]. *)
Theorem decodeValue_dispatch_on_kind :
  (∀ (fuel : nat) (props : list (string * jsval)),
     (prop_lookup "kind" props = Some (JPrim (VString "structValue")) →
      decodeValue (S fuel) (JObj props)
        = obind (get_prop (JObj props) "structValue") (structToObj fuel)) ∧
     (prop_lookup "kind" props = Some (JPrim (VString "nullValue")) →
      decodeValue (S fuel) (JObj props) = Ret (JPrim VNull)) ∧
     (∀ lprops xs,
        prop_lookup "kind" props = Some (JPrim (VString "listValue")) →
        prop_lookup "listValue" props = Some (JObj lprops) →
        prop_lookup "values" lprops = Some (JArr xs) →
        ∀ r, decodeValue (S fuel) (JObj props) = Ret r ↔
             ∃ ys, r = JArr ys ∧
                   Forall2 (fun x y => decodeValue fuel x = Ret y) xs ys) ∧
     (∀ k payload,
        prop_lookup "kind" props = Some (JPrim (VString k)) →
        k ∉ ["structValue"; "nullValue"; "listValue"] →
        prop_lookup k props = Some payload →
        decodeValue (S fuel) (JObj props) = Ret payload)) ∧
  (∀ fuel, structToObj (S (S fuel)) struct_with_kind
           = Ret (JObj [("p", JObj [("q", JPrim (VNumber five))])])) ∧
  (∀ fuel, decodeValue (S (S fuel)) list_with_kind
           = Ret (JArr [JPrim (VString "a"); JPrim VNull])).
Proof.
  split; [|by split].
  intros fuel props. split; [|split; [|split]].
  - intros Hk. by rewrite (decodeValue_kind _ _ _ Hk).
  - intros Hk. by rewrite (decodeValue_kind _ _ _ Hk).
  - intros lprops xs Hk Hl Hv r. rewrite (decodeValue_kind _ _ _ Hk).
    cbn [String.eqb Ascii.eqb Bool.eqb get_prop]. rewrite Hl. cbn [obind get_prop].
    rewrite Hv. cbn [obind]. split.
    + destruct (array_map_pure (decodeValue fuel) xs) as [ys| | |] eqn:Hxs; try done.
      simpl. intros [= <-]. exists ys. split; [done|].
      by apply array_map_pure_Ret.
    + intros (ys & -> & Hall). apply array_map_pure_Ret in Hall. by rewrite Hall.
  - intros k payload Hk Hnot Hp. rewrite (decodeValue_kind _ _ _ Hk).
    assert (k ≠ "structValue" ∧ k ≠ "nullValue" ∧ k ≠ "listValue") as (H1 & H2 & H3)
      by set_solver.
    apply String.eqb_neq in H1 as ->. apply String.eqb_neq in H2 as ->.
    apply String.eqb_neq in H3 as ->.
    cbn [get_prop]. by rewrite Hp.
Qed.

(** [{kind: "numberValue", numberValue: 5}] decodes to [5]. *)
Lemma decodeValue_dispatch_on_kind_witness :
  decodeValue 1 (JObj [ ("kind", JPrim (VString "numberValue"));
                        ("numberValue", JPrim (VNumber five)) ])
    = Ret (JPrim (VNumber five)).
Proof.
  apply (proj2 (proj2 (proj2 (proj1 decodeValue_dispatch_on_kind 0
           [ ("kind", JPrim (VString "numberValue"));
             ("numberValue", JPrim (VNumber five)) ])))
         "numberValue" (JPrim (VNumber five))).
  - reflexivity.
  - apply (bool_decide_unpack _). reflexivity.
  - reflexivity.
Defined.

(** ** Round trip *)






Lemma plain_data_tree_defined (fuel : nat) (h : heap) (seen : gset loc)
    (v : value) (t : jsval) :
  plain_data_tree fuel h seen v = Some t → is_undefined v = false.
Proof. destruct fuel; [done|]. by destruct v. Qed.

(** More fuel reads the same tree. *)
Lemma plain_data_tree_mono (h : heap) (n : nat) :
  ∀ seen v t,
    plain_data_tree n h seen v = Some t → plain_data_tree (S n) h seen v = Some t.
Proof.
  induction n as [|n IH]; intros seen v t; [done|].
  change (plain_data_tree (S n) h seen v = Some t →
          match v with
          | VNull | VBool _ | VNumber _ | VString _ => Some (JPrim v)
          | VRef l =>
              match h !! l with
              | Some (OBuffer _) => Some (JPrim v)
              | Some (OArray elems) =>
                  JArr <$> mapM (plain_data_tree (S n) h seen) elems
              | Some (OOrdinary o) =>
                  if bool_decide (l ∈ seen) then None
                  else match classify (o_proto o) with
                       | Ret true =>
                           JObj <$> mapM
                             (fun p => pair (p_key p) <$>
                                plain_data_tree (S n) h ({[l]} ∪ seen) (p_value p))
                             (filter (fun p => p_enumerable p = true) (o_own o))
                       | _ => None
                       end
              | _ => None
              end
          | _ => None
          end = Some t).
  cbn [plain_data_tree].
  destruct v as [| |b|x|s|id|z|l]; try done.
  destruct (h !! l) as [[o|elems|bytes|]|]; try done.
  - case_bool_decide; [done|].
    destruct (classify (o_proto o)) as [[]| | |]; try done.
    intros (kvs & Hkvs & ->)%fmap_Some. apply fmap_Some. exists kvs. split; [|done].
    apply mapM_Some. apply mapM_Some in Hkvs.
    eapply Forall2_impl; [exact Hkvs|]. intros p kv.
    intros (t & Ht & ->)%fmap_Some. apply fmap_Some. exists t.
    split; [by apply IH|done].
  - intros (ts & Hts & ->)%fmap_Some. apply fmap_Some. exists ts. split; [|done].
    apply mapM_Some. apply mapM_Some in Hts.
    eapply Forall2_impl; [exact Hts|]. intros x t. apply IH.
Qed.

(** The members of a plain-data object and their trees. *)
Lemma members_trees (F : value → option jsval) (ps : list property)
    (kvs : list (string * jsval)) :
  mapM (fun p => pair (p_key p) <$> F (p_value p)) ps = Some kvs ↔
  Forall2 (fun p kv => kv.1 = p_key p ∧ F (p_value p) = Some kv.2) ps kvs.
Proof.
  rewrite mapM_Some.
  split; intros H; eapply Forall2_impl; try exact H;
    intros p [k t]; simpl; rewrite fmap_Some.
  - by intros (t' & Ht & [= -> ->]).
  - intros [-> Ht]. eauto.
Qed.

Section RoundTrip.
Variable h : heap.
Variable this : ObjectToStructConverter.
Hypothesis h_wf : wf_heap h.

(** [isPlainObject] on a plain object, with a sound cache. *)
Lemma isPlainObject_sound (l : loc) (o : ordinary) (st : state) :
  cache_sound h (isPlainObjectCache st) →
  h !! l = Some (OOrdinary o) →
  classify (o_proto o) = Ret true →
  ∃ st', isPlainObject h l st = (Ret true, st') ∧
         seenObjects st' = seenObjects st ∧
         cache_sound h (isPlainObjectCache st').
Proof.
  intros Hsound Hl Hplain.
  destruct (isPlainObjectCache st !! l) as [b|] eqn:Hc.
  - destruct (Hsound _ _ Hc) as (o' & Ho' & Hb).
    rewrite Hl in Ho'. injection Ho' as <-. simpl in Hb.
    rewrite Hplain in Hb. injection Hb as <-.
    exists st. by rewrite (isPlainObject_cached _ _ _ _ Hc).
  - exists (mkState (seenObjects st) (<[l:=true]> (isPlainObjectCache st))).
    split; [|split; [done|]].
    + unfold isPlainObject, bind, cache_get. rewrite Hc, Hl. simpl.
      unfold classify in Hplain.
      destruct (o_proto o) as [| |[c|] keys]; try done.
      destruct (ctor_typeof_function c); [|done].
      destruct (ctor_instanceof_self c) as [inst|]; [|done].
      injection Hplain as ->. done.
    + simpl. intros l' b. destruct (decide (l' = l)) as [->|Hne].
      * rewrite lookup_insert_eq. intros [= <-]. eauto.
      * rewrite lookup_insert_ne by done. apply Hsound.
Qed.


Lemma encodeValue_ordinary (n : nat) (l : loc) (o : ordinary) :
  h !! l = Some (OOrdinary o) →
  encodeValue_ h this (S n) (VRef l)
    = encode_object h this (encodeValue_ h this n) "object" (VRef l).
Proof. intros Hl. simpl. by rewrite Hl. Qed.

End RoundTrip.


(** A key [hasOwnProperty] in the value breaks the decoding too:
    [structToObj] calls [struct.fields.hasOwnProperty], which is then a
    tagged value and not a function. *)
Lemma roundtrip_hasOwnProperty_key_throws :
  let h : heap := {[ 1 := literal [("hasOwnProperty", VNumber one)] ]} in
  plain_data_tree 2 h ∅ (VRef 1)
    = Some (JObj [("hasOwnProperty", JPrim (VNumber one))]) ∧
  convert h default_converter 1 1 no_state
    = (Ret (JObj [("fields",
                   JObj [("hasOwnProperty",
                          JObj [("numberValue", JPrim (VNumber one))])])]),
       no_state) ∧
  structToObj 1 (with_kind_struct
                   (JObj [("fields",
                           JObj [("hasOwnProperty",
                                  JObj [("numberValue", JPrim (VNumber one))])])]))
    = Throw ThrownTypeError.
Proof. by repeat split. Qed.



(** * Further properties *)

(** ** [seenObjects] across a call *)

(** X1: an [encodeValue_] that returns leaves [seenObjects] exactly as it
    found it, and a [convert(obj)] that returns leaves it without [obj]
    and otherwise unchanged: every object entered during the call has
    been taken out again. *)
Theorem returning_calls_restore_seenObjects (h : heap)
    (this : ObjectToStructConverter) (fuel : nat) :
  (∀ v st st' r,
     encodeValue_ h this fuel v st = (Ret r, st') →
     seenObjects st' = seenObjects st) ∧
  (∀ obj st st' r,
     convert h this fuel obj st = (Ret r, st') →
     seenObjects st' = seenObjects st ∖ {[obj]}).
Proof.
  split.
  - intros v st st' r. apply encodeValue_Ret_seen.
  - intros obj st st' r. apply convert_Ret_seen.
Qed.

(** The nested object of [heap_nested] is encoded while [7] is in
    [seenObjects]; the set is the same afterwards. *)
Lemma returning_calls_restore_seenObjects_witness :
  ∃ r st', encodeValue_ heap_nested default_converter 3 (VRef 1) (mkState {[ 7 ]} ∅)
             = (Ret r, st') ∧
           seenObjects st' = {[ 7 ]}.
Proof.
  eexists _, _. split; [reflexivity|].
  exact (proj1 (returning_calls_restore_seenObjects heap_nested default_converter 3)
           (VRef 1) (mkState {[ 7 ]} ∅) _ _ eq_refl).
Defined.

(** X2: whatever its outcome, [encodeValue_] takes nothing out of
    [seenObjects] that was there before the call; and a [convert(obj)]
    that does not return (it throws, or the recursion does not end) leaves
    [obj] itself in [seenObjects], on top of what was there. *)
Theorem abrupt_calls_keep_seenObjects (h : heap)
    (this : ObjectToStructConverter) (fuel : nat) :
  (∀ v st st' r,
     encodeValue_ h this fuel v st = (r, st') →
     seenObjects st ⊆ seenObjects st') ∧
  (∀ obj o st st' r,
     h !! obj = Some (OOrdinary o) →
     convert h this fuel obj st = (r, st') →
     (∀ y, r ≠ Ret y) →
     obj ∈ seenObjects st' ∧ seenObjects st ⊆ seenObjects st').
Proof.
  split.
  - intros v st st' r. apply encodeValue_seen_mono.
  - intros obj o st st' r Hobj Hconv Hr.
    pose proof (convert_abrupt_keeps_seen _ _ _ _ _ _ _ _ Hobj Hconv Hr) as Hin.
    split; [done|].
    eapply convert_with_seen in Hconv as [Hsub _]; [| |done].
    + intros x Hx. destruct (decide (x = obj)) as [->|Hne]; [done|].
      apply Hsub. set_solver.
    + intros ????; apply encodeValue_seen_mono.
Qed.

(** [{bad: new Foo()}] with [7] in [seenObjects]: the conversion throws and
    leaves both [7] and the object in the set. *)
Lemma abrupt_calls_keep_seenObjects_witness :
  1 ∈ seenObjects (mkState ({[ 1 ]} ∪ {[ 7 ]}) {[ 2 := false ]}) ∧
  seenObjects (mkState {[ 7 ]} ∅)
    ⊆ seenObjects (mkState ({[ 1 ]} ∪ {[ 7 ]}) {[ 2 := false ]}).
Proof.
  apply (proj2 (abrupt_calls_keep_seenObjects heap_with_stale_entry
                  default_converter 2)
           1 (mkOrdinary ProtoObject [mkProperty "bad" true (VRef 2)]
                (Some "[object Object]"))
           (mkState {[ 7 ]} ∅) (mkState ({[ 1 ]} ∪ {[ 7 ]}) {[ 2 := false ]})
           (Throw (ThrownError "Value of type object not recognized."))).
  - reflexivity.
  - reflexivity.
  - intros y. discriminate.
Defined.

(** ** The shape of what [encodeValue_] returns *)

(** X3: whatever the value, the options and the state, a result of
    [encodeValue_] is either an object with exactly one member, named by
    one of the seven tags, or [undefined]; and it is [undefined] only for
    a symbol, a bigint or a function. *)
Theorem encodeValue_result_shape (h : heap) (this : ObjectToStructConverter)
    (fuel : nat) (v : value) (st st' : state) (r : jsval) :
  encodeValue_ h this fuel v st = (Ret r, st') →
  (r = JPrim VUndefined ∧
   ((∃ id, v = VSymbol id) ∨ (∃ z, v = VBigInt z) ∨
    (∃ l, v = VRef l ∧ h !! l = Some OFunction))) ∨
  (∃ tag payload, r = JObj [(tag, payload)] ∧ tag ∈ tags).
Proof.
  destruct fuel as [|fuel]; [done|].
  assert (Htag : ∀ tag payload, tag ∈ tags →
    (JObj [(tag, payload)] = JPrim VUndefined ∧
     ((∃ id, v = VSymbol id) ∨ (∃ z, v = VBigInt z) ∨
      (∃ l, v = VRef l ∧ h !! l = Some OFunction))) ∨
    (∃ tag' payload', JObj [(tag, payload)] = JObj [(tag', payload')] ∧ tag' ∈ tags))
    by (intros; right; eauto).
  destruct v as [| |b|n|s|id|z|l]; simpl.
  - done.
  - intros [= <- _]. apply Htag. set_solver.
  - intros [= <- _]. apply Htag. set_solver.
  - intros [= <- _]. apply Htag. set_solver.
  - intros [= <- _]. apply Htag. set_solver.
  - intros [= <- _]. left. eauto.
  - intros [= <- _]. left. eauto.
  - destruct (h !! l) as [[o|elems|bytes|]|] eqn:Hl; simpl; try done.
    + intros H. bind_inv H as plain s1 Hplain. destruct plain.
      * bind_inv H as seen s2 Hhas. destruct seen.
        -- destruct (negb (removeCircular this)); [done|].
           injection H as <- _. apply Htag. set_solver.
        -- bind_inv H as struct s3 Hconv. injection H as <- _.
           apply Htag. set_solver.
      * destruct (negb (stringify this)); [done|].
        destruct (o_String o); [|done]. injection H as <- _.
        apply Htag. set_solver.
    + intros H. bind_inv H as values s1 Hmap. injection H as <- _.
      apply Htag. set_solver.
    + intros [= <- _]. apply Htag. set_solver.
    + intros [= <- _]. left. split; [done|]. right. right. eauto.
Qed.

Lemma encodeValue_result_shape_witness :
  (JObj [("listValue", JObj [("values",
      JArr [JObj [("nullValue", JPrim (VNumber zero))];
            JObj [("stringValue", JPrim (VString "x"))]])])]
     = JPrim VUndefined ∧
   ((∃ id, VRef 2 = VSymbol id) ∨ (∃ z, VRef 2 = VBigInt z) ∨
    (∃ l, VRef 2 = VRef l ∧ heap_nested !! l = Some OFunction))) ∨
  (∃ tag payload,
     JObj [("listValue", JObj [("values",
       JArr [JObj [("nullValue", JPrim (VNumber zero))];
             JObj [("stringValue", JPrim (VString "x"))]])])]
       = JObj [(tag, payload)] ∧ tag ∈ tags).
Proof.
  apply (encodeValue_result_shape heap_nested default_converter 2 (VRef 2)
           no_state no_state).
  reflexivity.
Defined.

(** ** Arrays that contain themselves *)

(** X4: arrays are not entered in [seenObjects], so a circular reference
    through an array alone is not detected, with or without
    [removeCircular]: an array that holds itself is never encoded, and
    when it is its own first element the recursion does not end, however
    much fuel it is given. *)
Theorem self_containing_array_never_encoded (h : heap)
    (this : ObjectToStructConverter) (l : loc) (elems : list value) :
  h !! l = Some (OArray elems) →
  (VRef l ∈ elems →
   ∀ fuel st st' y, encodeValue_ h this fuel (VRef l) st ≠ (Ret y, st')) ∧
  (head elems = Some (VRef l) →
   ∀ fuel st, encodeValue_ h this fuel (VRef l) st = (OutOfFuel, st)).
Proof.
  intros Hl. split.
  - intros Hin fuel. induction fuel as [|fuel IH]; intros st st' y; [done|].
    rewrite (encodeValue_array _ _ _ _ _ _ Hl). intros H.
    bind_inv H as values s1 Hmap.
    eapply (array_map_Ret (encodeValue_ h this fuel) (fun _ => True)) in Hmap
      as [_ Hall]; [|done|done].
    apply list_elem_of_lookup in Hin as [i Hi].
    destruct (Forall2_lookup_l _ _ _ _ _ Hall Hi) as (e & _ & s & s' & _ & Henc).
    by apply IH in Henc.
  - intros Hhead fuel. induction fuel as [|fuel IH]; intros st; [done|].
    rewrite (encodeValue_array _ _ _ _ _ _ Hl).
    destruct elems as [|x rest]; [done|]. injection Hhead as ->.
    simpl. unfold bind at 1. unfold bind at 1. by rewrite IH.
Qed.

Lemma self_containing_array_never_encoded_witness :
  (∀ fuel st st' y,
     encodeValue_ heap_cyclic_array (mkConverter true true) fuel (VRef 1) st
       ≠ (Ret y, st')) ∧
  (∀ fuel st,
     encodeValue_ heap_cyclic_array (mkConverter true true) fuel (VRef 1) st
       = (OutOfFuel, st)).
Proof.
  pose proof (self_containing_array_never_encoded heap_cyclic_array
                (mkConverter true true) 1 [VRef 1; VNull] eq_refl) as [H1 H2].
  split.
  - apply H1. constructor.
  - apply H2. reflexivity.
Defined.

(** ** The classifier cache across a call *)

Section CacheRelation.
Variable h : heap.
Variable this : ObjectToStructConverter.
Variable Rc : gmap loc bool → gmap loc bool → Prop.
Hypothesis Rc_refl : ∀ c, Rc c c.
Hypothesis Rc_trans : ∀ c1 c2 c3, Rc c1 c2 → Rc c2 c3 → Rc c1 c3.
Hypothesis Rc_insert : ∀ c l o b,
  c !! l = None → h !! l = Some o → classify (getPrototypeOf o) = Ret b →
  Rc c (<[l:=b]> c).

Lemma isPlainObject_rel (l : loc) (st st' : state) (r : outcome bool) :
  isPlainObject h l st = (r, st') →
  Rc (isPlainObjectCache st) (isPlainObjectCache st').
Proof.
  unfold isPlainObject, bind, cache_get, cache_set, ret, throw, unmodelled.
  destruct (isPlainObjectCache st !! l) as [c|] eqn:Hc; [by intros [= <- <-]|].
  destruct (h !! l) as [o|] eqn:Ho; [|by intros [= <- <-]].
  pose proof (Rc_insert _ _ _ true Hc Ho) as Htrue.
  pose proof (Rc_insert _ _ _ false Hc Ho) as Hfalse.
  unfold classify in Htrue, Hfalse.
  destruct (getPrototypeOf o) as [| |[constr|] keys]; simpl.
  1-2: intros [= <- <-]; by apply Htrue.
  2: intros [= <- <-]; by apply Hfalse.
  destruct (ctor_typeof_function constr); simpl;
    [|intros [= <- <-]; by apply Hfalse].
  destruct (ctor_instanceof_self constr) as [inst|]; [|by intros [= <- <-]].
  destruct (inst && ctor_tag_Function constr); simpl; intros [= <- <-];
    [by apply Htrue|by apply Hfalse].
Qed.

Lemma array_map_rel {A B : Type} (f : A → M B) (xs : list A)
    (st st' : state) (r : outcome (list B)) :
  (∀ x s r' s', f x s = (r', s') →
     Rc (isPlainObjectCache s) (isPlainObjectCache s')) →
  array_map f xs st = (r, st') →
  Rc (isPlainObjectCache st) (isPlainObjectCache st').
Proof.
  intros Hf. revert st r. induction xs as [|x xs IH]; intros st r; simpl.
  - by intros [= <- <-].
  - intros H. apply bind_inv_any in H as [(y & s1 & Hy & H)|(r0 & Hy & _)];
      [|by apply Hf in Hy].
    apply Hf in Hy.
    apply bind_inv_any in H as [(ys & s2 & Hys & H)|(r0 & Hys & _)].
    + injection H as <- <-. apply IH in Hys. by eapply Rc_trans.
    + apply IH in Hys. by eapply Rc_trans.
Qed.

Lemma convert_loop_rel (encode : value → M jsval) (o : ordinary)
    (keys : list string) (fields : list (string * jsval)) (st st' : state)
    (r : outcome (list (string * jsval))) :
  (∀ x s r' s', encode x s = (r', s') →
     Rc (isPlainObjectCache s) (isPlainObjectCache s')) →
  convert_loop encode o keys fields st = (r, st') →
  Rc (isPlainObjectCache st) (isPlainObjectCache st').
Proof.
  intros Hf. revert fields st. induction keys as [|prop keys IH];
    intros fields st; simpl.
  - by intros [= <- <-].
  - destruct (hasOwnProperty o prop); [|by apply IH].
    destruct (is_undefined (obj_get o prop)); [by apply IH|].
    intros H. apply bind_inv_any in H as [(y & s1 & Hy & H)|(r0 & Hy & _)];
      [|by apply Hf in Hy].
    apply Hf in Hy.
    apply bind_inv_any in H as [(f1 & s2 & Hf1 & H)|(r0 & Hf1 & _)].
    + injection Hf1 as _ <-. apply IH in H. by eapply Rc_trans.
    + by injection Hf1 as _ <-.
Qed.

Lemma convert_with_rel (encode : value → M jsval) (obj : loc)
    (st st' : state) (r : outcome jsval) :
  (∀ x s r' s', encode x s = (r', s') →
     Rc (isPlainObjectCache s) (isPlainObjectCache s')) →
  convert_with h encode obj st = (r, st') →
  Rc (isPlainObjectCache st) (isPlainObjectCache st').
Proof.
  intros Hf. unfold convert_with.
  destruct (h !! obj) as [[o| | |]|]; try by intros [= <- <-].
  intros H.
  apply bind_inv_any in H as [([] & s1 & Hadd & H)|(r0 & Hadd & _)];
    [|by injection Hadd as _ <-].
  injection Hadd as <-.
  apply bind_inv_any in H as [(fields & s2 & Hloop & H)|(r0 & Hloop & _)];
    apply convert_loop_rel in Hloop; try done.
  apply bind_inv_any in H as [([] & s3 & Hdel & H)|(r0 & Hdel & _)];
    [|by injection Hdel as _ <-].
  injection Hdel as <-. by injection H as <- <-.
Qed.

Lemma encodeValue_rel (fuel : nat) (v : value) (st st' : state)
    (r : outcome jsval) :
  encodeValue_ h this fuel v st = (r, st') →
  Rc (isPlainObjectCache st) (isPlainObjectCache st').
Proof.
  revert v st st' r. induction fuel as [|fuel IH]; intros v st st' r;
    [by intros [= <- <-]|].
  destruct v as [| |b|n|s|id|z|l]; simpl; try by intros [= <- <-].
  destruct (h !! l) as [[o|elems|bytes|]|] eqn:Hl; simpl; try by intros [= <- <-].
  - intros H.
    apply bind_inv_any in H as [(plain & s1 & Hp & H)|(r0 & Hp & _)];
      [|by apply isPlainObject_rel in Hp].
    apply isPlainObject_rel in Hp. destruct plain.
    + apply bind_inv_any in H as [(seen & s2 & Hhas & H)|(r0 & Hhas & _)];
        [|by injection Hhas as _ <-].
      injection Hhas as <- <-. case_bool_decide as Hin.
      * by destruct (negb (removeCircular this)); injection H as <- <-.
      * apply bind_inv_any in H as [(struct & s3 & Hconv & H)|(r0 & Hconv & _)];
          apply convert_with_rel in Hconv; try (intros ????; apply IH).
        -- injection H as <- <-. by eapply Rc_trans.
        -- by eapply Rc_trans.
    + destruct (negb (stringify this)); [by injection H as <- <-|].
      by destruct (o_String o); injection H as <- <-.
  - intros H. apply bind_inv_any in H as [(values & s1 & Hmap & H)|(r0 & Hmap & _)];
      apply array_map_rel in Hmap; try (intros ????; apply IH); [|done].
    by injection H as <- <-.
Qed.
End CacheRelation.

(** X5: encoding only adds to the classifier cache.  Whatever the outcome
    of [encodeValue_] or [convert], every answer cached before the call is
    still cached, unchanged, after it, and a cache whose answers are those
    of the prototypes is still such a cache. *)
Theorem encoding_extends_cache (h : heap) (this : ObjectToStructConverter)
    (fuel : nat) :
  (∀ v st st' r,
     encodeValue_ h this fuel v st = (r, st') →
     isPlainObjectCache st ⊆ isPlainObjectCache st' ∧
     (cache_sound h (isPlainObjectCache st) →
      cache_sound h (isPlainObjectCache st'))) ∧
  (∀ obj st st' r,
     convert h this fuel obj st = (r, st') →
     isPlainObjectCache st ⊆ isPlainObjectCache st' ∧
     (cache_sound h (isPlainObjectCache st) →
      cache_sound h (isPlainObjectCache st'))).
Proof.
  assert (Hsub : ∀ (c : gmap loc bool) l o b,
    c !! l = None → h !! l = Some o → classify (getPrototypeOf o) = Ret b →
    c ⊆ <[l:=b]> c) by (intros; by apply insert_subseteq).
  assert (Hsound : ∀ (c : gmap loc bool) l o b,
    c !! l = None → h !! l = Some o → classify (getPrototypeOf o) = Ret b →
    cache_sound h c → cache_sound h (<[l:=b]> c)).
  { intros c l o b _ Ho Hb Hc l' b'. destruct (decide (l' = l)) as [->|Hne].
    - rewrite lookup_insert_eq. intros [= <-]. eauto.
    - rewrite lookup_insert_ne by done. apply Hc. }
  assert (Hsub_trans : ∀ c1 c2 c3 : gmap loc bool, c1 ⊆ c2 → c2 ⊆ c3 → c1 ⊆ c3)
    by (intros ???; by etrans).
  assert (Hsound_trans : ∀ c1 c2 c3 : gmap loc bool,
    (cache_sound h c1 → cache_sound h c2) →
    (cache_sound h c2 → cache_sound h c3) →
    cache_sound h c1 → cache_sound h c3) by (intros ??? H1 H2 ?; by apply H2, H1).
  pose proof (encodeValue_rel h this (⊆) (fun c => reflexivity c)
                Hsub_trans Hsub) as Henc_sub.
  pose proof (encodeValue_rel h this
                (fun c c' => cache_sound h c → cache_sound h c')
                (fun c H => H) Hsound_trans Hsound) as Henc_sound.
  split.
  - intros v st st' r H. split; [by eapply Henc_sub|by eapply Henc_sound].
  - intros obj st st' r H. split.
    + apply (convert_with_rel h (⊆) (fun c => reflexivity c) Hsub_trans
               (encodeValue_ h this fuel) obj st st' r); [|done].
      intros ????; apply Henc_sub.
    + apply (convert_with_rel h
               (fun c c' => cache_sound h c → cache_sound h c')
               (fun c H => H) Hsound_trans
               (encodeValue_ h this fuel) obj st st' r); [|done].
      intros ????; apply Henc_sound.
Qed.

(** The conversion of [{bad: new Foo()}] throws; the stale answer cached
    for location 9 is still there. *)
Lemma encoding_extends_cache_witness :
  ({[ 9 := true ]} : gmap nat bool) ⊆ {[ 2 := false; 9 := true ]}.
Proof.
  exact (proj1 (proj2 (encoding_extends_cache heap_with_stale_entry
                         default_converter 2)
                  1 (mkState ∅ {[ 9 := true ]})
                  (mkState {[ 1 ]} {[ 2 := false; 9 := true ]})
                  (Throw (ThrownError "Value of type object not recognized."))
                  eq_refl)).
Defined.

(** ** The encoding of plain data *)

Lemma no_proto_key_object (kvs : list (string * jsval)) :
  no_proto_key (JObj kvs) = true →
  Forall (fun kv => kv.1 ≠ "__proto__" ∧ no_proto_key kv.2 = true) kvs.
Proof.
  simpl. rewrite forallb_forall. intros H. apply Forall_forall.
  intros [k v] Hin. apply list_elem_of_In, H in Hin.
  apply andb_prop in Hin as [H1 Hv].
  by apply negb_true_iff, String.eqb_neq in H1.
Qed.

Lemma no_proto_key_array (ts : list jsval) :
  no_proto_key (JArr ts) = true → Forall (fun t => no_proto_key t = true) ts.
Proof.
  simpl. rewrite forallb_forall. intros H. apply Forall_forall.
  intros t Hin. by apply H, list_elem_of_In.
Qed.

(** When every enumerable member has a tree, the members [convert]
    encodes are the enumerable ones, and the trees carry their keys. *)
Lemma members_all_encodable (F : value → option jsval) (o : ordinary)
    (kvs : list (string * jsval)) :
  (∀ v t, F v = Some t → is_undefined v = false) →
  Forall2 (fun p kv => kv.1 = p_key p ∧ F (p_value p) = Some kv.2)
          (filter (fun p => p_enumerable p = true) (o_own o)) kvs →
  encodable_members o = filter (fun p => p_enumerable p = true) (o_own o) ∧
  kvs.*1 = p_key <$> filter (fun p => p_enumerable p = true) (o_own o).
Proof.
  intros HF Htrees. split.
  - assert (Hdef : Forall (fun p => is_undefined (p_value p) = false)
                     (filter (fun p => p_enumerable p = true) (o_own o))).
    { apply Forall_forall. intros p Hp.
      apply list_elem_of_lookup in Hp as [i Hi].
      destruct (Forall2_lookup_l _ _ _ _ _ Htrees Hi) as (kv & _ & _ & Ht).
      by eapply HF. }
    unfold encodable_members. clear -Hdef.
    induction (o_own o) as [|p ps IHps]; [done|].
    rewrite !filter_cons in *. destruct (p_enumerable p) eqn:He; simpl in *.
    + apply Forall_cons in Hdef as [Hp Hdef]. rewrite Hp. simpl.
      f_equal. by apply IHps.
    + by apply IHps.
  - clear -Htrees. induction Htrees as [|p kv ps kvs [Hk _] _ IHt]; [done|].
    rewrite !fmap_cons. by f_equal.
Qed.

Lemma zip_tagged {A : Type} (F : A → option jsval) (G : A → string)
    (ps : list A) (kvs : list (string * jsval)) (es : list jsval) :
  Forall2 (fun p kv => kv.1 = G p ∧ F p = Some kv.2) ps kvs →
  Forall2 (fun p e => ∃ t, F p = Some t ∧ e = tagged t) ps es →
  zip kvs.*1 es = map (fun kv : string * jsval => match kv with
                                                  | (k, v) => (k, tagged v)
                                                  end) kvs.
Proof.
  intros Htrees. revert es.
  induction Htrees as [|p [k t] ps kvs [_ Ht] _ IH]; intros es Hes.
  - by apply Forall2_nil_inv_l in Hes as ->.
  - apply Forall2_cons_inv_l in Hes as (e & es' & (t' & Ht' & ->) & Hes & ->).
    simpl in *. rewrite Ht in Ht'. injection Ht' as <-. f_equal. by apply IH.
Qed.

Lemma map_tagged {A : Type} (F : A → option jsval) (xs : list A)
    (ts es : list jsval) :
  Forall2 (fun x t => F x = Some t) xs ts →
  Forall2 (fun x e => ∃ t, F x = Some t ∧ e = tagged t) xs es →
  es = map tagged ts.
Proof.
  intros Htrees. revert es. induction Htrees as [|x t xs ts Ht _ IH]; intros es Hes.
  - by apply Forall2_nil_inv_l in Hes as ->.
  - apply Forall2_cons_inv_l in Hes as (e & es' & (t' & Ht' & ->) & Hes & ->).
    simpl. rewrite Ht in Ht'. injection Ht' as <-. f_equal. by apply IH.
Qed.

Section StructuralEncoding.
Variable h : heap.
Variable this : ObjectToStructConverter.
Hypothesis h_wf : wf_heap h.

(** [convert] on a plain-data object, given the encoding of its members. *)
Lemma convert_tagged (n : nat) (l : loc) (o : ordinary) (st : state)
    (kvs : list (string * jsval)) :
  (∀ seen v, encodes h this n seen v) →
  h !! l = Some (OOrdinary o) →
  l ∉ seenObjects st →
  cache_sound h (isPlainObjectCache st) →
  mapM (fun p => pair (p_key p) <$>
                 plain_data_tree n h ({[l]} ∪ seenObjects st) (p_value p))
       (filter (fun p => p_enumerable p = true) (o_own o)) = Some kvs →
  no_proto_key (JObj kvs) = true →
  ∃ st',
    convert_with h (encodeValue_ h this n) l st
      = (Ret (tagged_struct (JObj kvs)), st') ∧
    seenObjects st' = seenObjects st ∧
    cache_sound h (isPlainObjectCache st').
Proof.
  intros IH Hl Hfresh Hsound Htrees Hsafe.
  apply members_trees in Htrees.
  apply no_proto_key_object in Hsafe.
  pose proof (h_wf _ _ Hl) as Hnd. simpl in Hnd.
  destruct (members_all_encodable _ o kvs
              (plain_data_tree_defined n h ({[l]} ∪ seenObjects st)) Htrees)
    as [Hmembers Hkeys].
  set (members := filter (fun p => p_enumerable p = true) (o_own o)) in *.
  set (seen1 := {[l]} ∪ seenObjects st) in *.
  pose proof (visited_members_for_in _ Hnd) as Hvisited.
  rewrite Hmembers in Hvisited.
  assert (Hkeys_nd : NoDup kvs.*1).
  { rewrite Hkeys, <- Hmembers. by apply encodable_members_NoDup. }
  destruct (convert_loop_run (encodeValue_ h this n)
              (fun s => seenObjects s = seen1 ∧ cache_sound h (isPlainObjectCache s))
              o
              (fun v y => ∃ t, plain_data_tree n h seen1 v = Some t ∧ y = tagged t)
              (for_in_keys o) []
              (mkState seen1 (isPlainObjectCache st)))
    as (encoded & Hencoded & Hrun).
  { by split. }
  { rewrite Hvisited. apply Forall_fmap, Forall_forall. intros p Hp. simpl.
    apply list_elem_of_lookup in Hp as [i Hi].
    destruct (Forall2_lookup_l _ _ _ _ _ Htrees Hi) as ([k t] & Hkv & _ & Ht).
    simpl in Ht.
    assert (Hsafe_t : no_proto_key t = true).
    { apply list_elem_of_lookup_2 in Hkv.
      by apply (proj1 (Forall_forall _ _) Hsafe) in Hkv as (_ & ?). }
    intros s [Hs Hc].
    destruct (IH seen1 (p_value p) s t Hs Hc Ht Hsafe_t) as (s' & Henc & Hs' & Hc').
    exists (tagged t), s'. eauto 10. }
  rewrite Hvisited in Hencoded, Hrun.
  apply Forall2_fmap_l in Hencoded. simpl in Hencoded.
  rewrite <- list_fmap_compose in Hrun.
  change (fst ∘ (fun p => (p_key p, p_value p))) with p_key in Hrun.
  rewrite <- Hkeys in Hrun.
  pose proof (zip_tagged (fun p => plain_data_tree n h seen1 (p_value p)) p_key
                members kvs encoded Htrees Hencoded) as Hzip.
  rewrite Hzip in Hrun.
  destruct (Hrun (map (fun kv : string * jsval => match kv with
                                                  | (k, v) => (k, tagged v)
                                                  end) kvs))
    as (s2 & Hloop & Hs2 & Hc2).
  { rewrite <- Hzip.
    assert (Hzip_keys : (zip kvs.*1 encoded).*1 = kvs.*1).
    { apply fst_zip. rewrite length_fmap.
      rewrite <- (Forall2_length _ _ _ Hencoded), (Forall2_length _ _ _ Htrees). lia. }
    rewrite (assign_all_fresh [] (zip kvs.*1 encoded)); [done| |].
    - simpl. by rewrite Hzip_keys.
    - apply Forall_forall. intros [k e] Hin.
      assert (Hk : k ∈ kvs.*1).
      { rewrite <- Hzip_keys. apply list_elem_of_fmap. by exists (k, e). }
      apply list_elem_of_fmap in Hk as ([k' t] & -> & Hkt).
      by apply (proj1 (Forall_forall _ _) Hsafe) in Hkt as (? & _). }
  exists (mkState (seenObjects s2 ∖ {[l]}) (isPlainObjectCache s2)).
  split; [|split; [|done]].
  - unfold convert_with. rewrite Hl.
    unfold seen_add at 1. erewrite bind_Ret_intro by reflexivity.
    rewrite (bind_Ret_intro _ _ _ _ _ Hloop).
    unfold seen_delete at 1. erewrite bind_Ret_intro by reflexivity.
    reflexivity.
  - simpl. rewrite Hs2. unfold seen1. set_solver.
Qed.

(** The encoder computes [tagged] on plain data. *)
Lemma encodes_all (n : nat) : ∀ seen v, encodes h this n seen v.
Proof.
  induction n as [|n IH]; intros seen v st t Hs Hc Ht Hsafe; [done|].
  destruct v as [| |b|x|s|id|z|l]; try done.
  1-4: injection Ht as <-; exists st; by repeat split.
  simpl in Ht. destruct (h !! l) as [[o|elems|bytes|]|] eqn:Hl; try done.
  - case_bool_decide as Hin; [done|].
    destruct (classify (o_proto o)) as [[]| | |] eqn:Hplain; try done.
    apply fmap_Some in Ht as (kvs & Hkvs & ->).
    destruct (isPlainObject_sound h l o st Hc Hl Hplain) as (s1 & Hcall & Hs1 & Hc1).
    rewrite <- Hs, <- Hs1 in Hkvs, Hin.
    destruct (convert_tagged n l o s1 kvs IH Hl Hin Hc1 Hkvs Hsafe)
      as (st' & Hconv & Hs' & Hc').
    exists st'. split; [|split; [congruence|done]].
    rewrite (encodeValue_ordinary _ _ _ _ _ Hl). unfold encode_object. rewrite Hl.
    rewrite (bind_Ret_intro _ _ _ _ _ Hcall).
    unfold seen_has at 1. erewrite bind_Ret_intro by reflexivity.
    rewrite bool_decide_eq_false_2 by done.
    by rewrite (bind_Ret_intro _ _ _ _ _ Hconv).
  - apply fmap_Some in Ht as (ts & Hts & ->).
    apply mapM_Some in Hts. apply no_proto_key_array in Hsafe.
    destruct (array_map_run (encodeValue_ h this n)
                (fun s => seenObjects s = seen ∧
                          cache_sound h (isPlainObjectCache s))
                (fun x y => ∃ t, plain_data_tree n h seen x = Some t ∧ y = tagged t)
                elems st)
      as (ys & st' & Hmap & [Hs' Hc'] & Hall).
    { by split. }
    { apply Forall_forall. intros x Hx.
      apply list_elem_of_lookup in Hx as [i Hi].
      destruct (Forall2_lookup_l _ _ _ _ _ Hts Hi) as (t & Hti & Ht).
      apply list_elem_of_lookup_2 in Hti.
      apply (proj1 (Forall_forall _ _) Hsafe) in Hti.
      intros s [Hss Hsc].
      destruct (IH seen x s t Hss Hsc Ht Hti) as (s' & ? & ? & ?).
      exists (tagged t), s'. eauto 10. }
    exists st'. split; [|done].
    rewrite (encodeValue_array _ _ _ _ _ _ Hl).
    rewrite (bind_Ret_intro _ _ _ _ _ Hmap).
    by rewrite (map_tagged _ _ _ _ Hts Hall).
  - injection Ht as <-. exists st. split; [|done]. simpl. by rewrite Hl.
Qed.
End StructuralEncoding.

(** X6: on an object that is acyclic plain data, with no [__proto__] key
    and a cache that agrees with the prototypes, [convert] returns, leaves
    [seenObjects] as it was, and its result is the structural encoding of
    the object: one tagged value per member, lists and nested objects
    encoded member by member.  The result depends neither on
    [removeCircular] or [stringify] nor on what else is in the state. *)
Theorem convert_plain_data (h : heap) (this : ObjectToStructConverter)
    (n : nat) (obj : loc) (o : ordinary) (st : state) (t : jsval) :
  wf_heap h →
  cache_sound h (isPlainObjectCache st) →
  h !! obj = Some (OOrdinary o) →
  plain_data_tree (S n) h (seenObjects st) (VRef obj) = Some t →
  no_proto_key t = true →
  ∃ st',
    convert h this n obj st = (Ret (tagged_struct t), st') ∧
    seenObjects st' = seenObjects st ∧
    cache_sound h (isPlainObjectCache st').
Proof.
  intros Hwf Hc Hobj Ht Hsafe. simpl in Ht. rewrite Hobj in Ht.
  case_bool_decide as Hin; [done|].
  destruct (classify (o_proto o)) as [[]| | |] eqn:Hplain; try done.
  apply fmap_Some in Ht as (kvs & Hkvs & ->).
  exact (convert_tagged h this Hwf n obj o st kvs (encodes_all h this Hwf n)
           Hobj Hin Hc Hkvs Hsafe).
Qed.

Lemma convert_plain_data_witness :
  ∃ st',
    convert heap_nested (mkConverter true true) 2 1 no_state
      = (Ret (tagged_struct tree_nested), st') ∧
    seenObjects st' = ∅ ∧
    cache_sound heap_nested (isPlainObjectCache st').
Proof.
  apply (convert_plain_data heap_nested (mkConverter true true) 2 1
           (mkOrdinary ProtoObject
              [ mkProperty "a" true (VNumber one); mkProperty "b" true (VRef 2);
                mkProperty "c" true (VRef 3); mkProperty "e" true (VRef 4) ]
              (Some "[object Object]"))
           no_state tree_nested).
  - apply (bool_decide_unpack _). reflexivity.
  - intros l b Hl. simpl in Hl. by rewrite lookup_empty in Hl.
  - reflexivity.
  - reflexivity.
  - reflexivity.
Defined.

(** X7: [objToStruct] on such an object returns its structural encoding
    whatever the options passed, also none, and hands back a cache that
    still agrees with the prototypes. *)
Theorem objToStruct_plain_data (h : heap) (n : nat) (obj : loc) (o : ordinary)
    (options : option ObjectToStructConverterConfig) (cache : gmap loc bool)
    (t : jsval) :
  wf_heap h →
  cache_sound h cache →
  h !! obj = Some (OOrdinary o) →
  plain_data_tree (S n) h ∅ (VRef obj) = Some t →
  no_proto_key t = true →
  ∃ cache',
    objToStruct n h obj options cache = (Ret (tagged_struct t), cache') ∧
    cache ⊆ cache' ∧
    cache_sound h cache'.
Proof.
  intros Hwf Hc Hobj Ht Hsafe. simpl in Ht. rewrite Hobj in Ht.
  case_bool_decide as Hin; [done|].
  destruct (classify (o_proto o)) as [[]| | |] eqn:Hplain; try done.
  apply fmap_Some in Ht as (kvs & Hkvs & ->).
  destruct (convert_tagged h (new_ObjectToStructConverter options) Hwf n obj o
              (mkState ∅ cache) kvs
              (encodes_all h (new_ObjectToStructConverter options) Hwf n)
              Hobj Hin Hc Hkvs Hsafe)
    as (st' & Hconv & _ & Hc').
  exists (isPlainObjectCache st'). unfold objToStruct, convert.
  rewrite Hconv. split; [done|]. split; [|done].
  apply (convert_with_rel h (⊆) (fun c => reflexivity c)
           (fun c1 c2 c3 H1 H2 => transitivity H1 H2)
           (encodeValue_ h (new_ObjectToStructConverter options) n) obj
           (mkState ∅ cache) st' _) in Hconv; [done|].
  intros x s r' s'.
  apply (encodeValue_rel h (new_ObjectToStructConverter options) (⊆)
           (fun c => reflexivity c) (fun c1 c2 c3 H1 H2 => transitivity H1 H2)).
  intros; by apply insert_subseteq.
Qed.

Lemma objToStruct_plain_data_witness :
  ∃ cache',
    objToStruct 2 heap_nested 1 (Some (mkConfig (Some true) None)) ∅
      = (Ret (tagged_struct tree_nested), cache') ∧
    ∅ ⊆ cache' ∧
    cache_sound heap_nested cache'.
Proof.
  apply (objToStruct_plain_data heap_nested 2 1
           (mkOrdinary ProtoObject
              [ mkProperty "a" true (VNumber one); mkProperty "b" true (VRef 2);
                mkProperty "c" true (VRef 3); mkProperty "e" true (VRef 4) ]
              (Some "[object Object]"))
           (Some (mkConfig (Some true) None)) ∅ tree_nested).
  - apply (bool_decide_unpack _). reflexivity.
  - intros l b Hl. by rewrite lookup_empty in Hl.
  - reflexivity.
  - reflexivity.
  - reflexivity.
Defined.

(** ** [structToObj] field by field *)

Lemma prop_lookup_mem (k : string) (v : jsval) (props : list (string * jsval)) :
  prop_lookup k props = Some v → mem_string k props.*1 = true.
Proof.
  intros Hk. destruct (mem_string k props.*1) eqn:Hm; [done|].
  apply mem_string_false, prop_lookup_None in Hm. congruence.
Qed.

(** The loop of [structToObj] decodes the values in order and stops at
    the first one that is not decoded. *)
Lemma structToObj_loop_map (decode : jsval → outcome jsval)
    (props : list (string * jsval)) :
  prop_lookup "hasOwnProperty" props = None →
  ∀ rest acc,
    (∀ kv, kv ∈ rest → prop_lookup kv.1 props = Some kv.2) →
    NoDup (acc.*1 ++ rest.*1) →
    Forall (fun kv => kv.1 ≠ "__proto__") rest →
    structToObj_loop decode (JObj props) rest.*1 acc
      = obind (array_map_pure decode rest.*2)
              (fun ts => Ret (acc ++ zip rest.*1 ts)).
Proof.
  intros Hhop rest. induction rest as [|[k v] rest IH]; intros acc Hown Hnd Hkeys.
  - simpl. by rewrite app_nil_r.
  - apply Forall_cons in Hkeys as [Hk Hkeys]. simpl in Hk.
    assert (Hkv : prop_lookup k props = Some v)
      by (apply (Hown (k, v)); by left).
    rewrite !fmap_cons. cbn [structToObj_loop call_hasOwnProperty fst snd].
    rewrite Hhop. cbn [obind]. rewrite (prop_lookup_mem _ _ _ Hkv).
    cbn [get_prop]. rewrite Hkv. cbn [obind array_map_pure].
    destruct (decode v) as [t| | |]; try done. cbn [obind].
    assert (Hassign : assign acc k t = Ret (acc ++ [(k, t)])).
    { unfold assign. apply String.eqb_neq in Hk as ->.
      assert (Hfresh : prop_lookup k acc = None).
      { apply prop_lookup_None. apply NoDup_app in Hnd as (_ & Hdisj & _).
        intros Hin. apply (Hdisj _ Hin). simpl. by left. }
      by rewrite Hfresh. }
    rewrite Hassign. cbn [obind]. rewrite IH.
    + destruct (array_map_pure decode rest.*2) as [ts| | |]; try done.
      simpl. by rewrite <- app_assoc.
    + intros kv Hin. apply Hown. by right.
    + rewrite fmap_app, <- app_assoc. done.
    + done.
Qed.

(** X8: when the Struct's [fields] is an object whose keys are distinct
    and none of them is [__proto__] or [hasOwnProperty], [structToObj]
    decodes the values of the fields in order with [decodeValue]: it
    returns when all of them are decoded, with the same keys in the same
    order each holding its decoded value, and otherwise ends as the first
    value that is not decoded did. *)
Theorem structToObj_decodes_fields (fuel : nat)
    (sprops props : list (string * jsval)) :
  prop_lookup "fields" sprops = Some (JObj props) →
  NoDup props.*1 →
  Forall (fun kv => kv.1 ≠ "__proto__" ∧ kv.1 ≠ "hasOwnProperty") props →
  structToObj fuel (JObj sprops)
    = obind (array_map_pure (decodeValue fuel) props.*2)
            (fun ts => Ret (JObj (zip props.*1 ts))) ∧
  ∀ r, structToObj fuel (JObj sprops) = Ret r ↔
       ∃ ts, r = JObj (zip props.*1 ts) ∧
             Forall2 (fun v t => decodeValue fuel v = Ret t) props.*2 ts.
Proof.
  intros Hfields Hnd Hkeys.
  assert (Heq : structToObj fuel (JObj sprops)
    = obind (array_map_pure (decodeValue fuel) props.*2)
            (fun ts => Ret (JObj (zip props.*1 ts)))).
  { unfold structToObj, structToObj_with. cbn [get_prop]. rewrite Hfields.
    cbn [obind for_in_jsval].
    rewrite (structToObj_loop_map (decodeValue fuel) props).
    - by destruct (array_map_pure (decodeValue fuel) props.*2).
    - apply prop_lookup_None. intros Hin.
      apply list_elem_of_fmap in Hin as (kv & Hk & Hin).
      apply (proj1 (Forall_forall _ _) Hkeys) in Hin as [_ ?]. congruence.
    - intros [k v] Hin. by apply prop_lookup_Some_first.
    - done.
    - eapply Forall_impl; [exact Hkeys|]. by intros kv [? _]. }
  split; [done|]. intros r. rewrite Heq. split.
  - destruct (array_map_pure (decodeValue fuel) props.*2) as [ts| | |] eqn:Hts;
      try done.
    simpl. intros [= <-]. exists ts. split; [done|]. by apply array_map_pure_Ret.
  - intros (ts & -> & Hall). apply array_map_pure_Ret in Hall. by rewrite Hall.
Qed.

Lemma structToObj_decodes_fields_witness :
  structToObj 2 struct_with_kind
    = obind (array_map_pure (decodeValue 2)
               [ JObj [ ("kind", JPrim (VString "structValue"));
                        ("structValue",
                         JObj [("fields",
                                JObj [("q", JObj [ ("kind", JPrim (VString "numberValue"));
                                                   ("numberValue",
                                                    JPrim (VNumber five)) ])])]) ] ])
            (fun ts => Ret (JObj (zip ["p"] ts))).
Proof.
  refine (proj1 (structToObj_decodes_fields 2
           [("fields",
             JObj [("p", JObj [ ("kind", JPrim (VString "structValue"));
                                ("structValue",
                                 JObj [("fields",
                                        JObj [("q", JObj [ ("kind", JPrim (VString "numberValue"));
                                                           ("numberValue",
                                                            JPrim (VNumber five)) ])])]) ])])]
           [("p", JObj [ ("kind", JPrim (VString "structValue"));
                         ("structValue",
                          JObj [("fields",
                                 JObj [("q", JObj [ ("kind", JPrim (VString "numberValue"));
                                                    ("numberValue",
                                                     JPrim (VNumber five)) ])])]) ])]
           _ _ _)).
  - reflexivity.
  - apply (bool_decide_unpack _). reflexivity.
  - apply (bool_decide_unpack _). reflexivity.
Defined.

(** X9: a Struct with a field named [hasOwnProperty] is not decoded:
    [structToObj] calls [struct.fields.hasOwnProperty], which is then the
    field's value and not a function, and the call throws a TypeError. *)
Theorem structToObj_hasOwnProperty_field_throws (fuel : nat)
    (sprops props : list (string * jsval)) (v : jsval) :
  prop_lookup "fields" sprops = Some (JObj props) →
  prop_lookup "hasOwnProperty" props = Some v →
  (∀ l, v ≠ JPrim (VRef l)) →
  structToObj fuel (JObj sprops) = Throw ThrownTypeError.
Proof.
  intros Hfields Hhop Hv. unfold structToObj, structToObj_with.
  cbn [get_prop]. rewrite Hfields. cbn [obind for_in_jsval].
  destruct props as [|[k w] props]; [done|].
  rewrite fmap_cons. cbn [structToObj_loop call_hasOwnProperty]. rewrite Hhop.
  destruct v as [[| | | | | | |l]| |]; try done. by destruct (Hv l).
Qed.

Lemma structToObj_hasOwnProperty_field_throws_witness :
  structToObj 3
    (JObj [("fields",
            JObj [ ("a", JObj [ ("kind", JPrim (VString "nullValue"));
                                ("nullValue", JPrim (VNumber zero)) ]);
                   ("hasOwnProperty",
                    JObj [ ("kind", JPrim (VString "boolValue"));
                           ("boolValue", JPrim (VBool true)) ]) ])])
    = Throw ThrownTypeError.
Proof.
  apply (structToObj_hasOwnProperty_field_throws 3 _
           [ ("a", JObj [ ("kind", JPrim (VString "nullValue"));
                          ("nullValue", JPrim (VNumber zero)) ]);
             ("hasOwnProperty",
              JObj [ ("kind", JPrim (VString "boolValue"));
                     ("boolValue", JPrim (VBool true)) ]) ]
           (JObj [ ("kind", JPrim (VString "boolValue"));
                   ("boolValue", JPrim (VBool true)) ])).
  - reflexivity.
  - reflexivity.
  - intros l. discriminate.
Defined.

(** ** Malformed input to the decoder *)

(** X10: the decoder does not validate its input.  A Struct without
    [fields] decodes to the empty object, and [structToObj] of [undefined]
    or [null] throws a TypeError.  A value of kind [structValue] without a
    [structValue] member, or of kind [listValue] without a [listValue]
    member or with a [listValue] that has no [values], throws a TypeError.
    A value whose [kind] is a string that names none of its members (and
    nothing of [Object.prototype]), or that has no [kind] and no member
    named [undefined], decodes to [undefined] without any error. *)
Theorem decoder_malformed_input (fuel : nat) (props : list (string * jsval)) :
  structToObj fuel (JPrim VUndefined) = Throw ThrownTypeError ∧
  structToObj fuel (JPrim VNull) = Throw ThrownTypeError ∧
  (prop_lookup "fields" props = None → structToObj fuel (JObj props) = Ret (JObj [])) ∧
  (prop_lookup "kind" props = Some (JPrim (VString "structValue")) →
   prop_lookup "structValue" props = None →
   decodeValue (S fuel) (JObj props) = Throw ThrownTypeError) ∧
  (prop_lookup "kind" props = Some (JPrim (VString "listValue")) →
   prop_lookup "listValue" props = None →
   decodeValue (S fuel) (JObj props) = Throw ThrownTypeError) ∧
  (∀ lprops,
     prop_lookup "kind" props = Some (JPrim (VString "listValue")) →
     prop_lookup "listValue" props = Some (JObj lprops) →
     prop_lookup "values" lprops = None →
     decodeValue (S fuel) (JObj props) = Throw ThrownTypeError) ∧
  (∀ k,
     prop_lookup "kind" props = Some (JPrim (VString k)) →
     k ∉ ["structValue"; "nullValue"; "listValue"] →
     prop_lookup k props = None → k ∉ Object_prototype_keys →
     decodeValue (S fuel) (JObj props) = Ret (JPrim VUndefined)) ∧
  (prop_lookup "kind" props = None →
   prop_lookup "undefined" props = None →
   decodeValue (S fuel) (JObj props) = Ret (JPrim VUndefined)).
Proof.
  split; [done|]. split; [done|]. split.
  { intros Hf. unfold structToObj, structToObj_with. cbn [get_prop].
    by rewrite Hf. }
  split.
  { intros Hk Hs. rewrite (decodeValue_kind _ _ _ Hk).
    cbn [String.eqb Ascii.eqb Bool.eqb get_prop]. by rewrite Hs. }
  split.
  { intros Hk Hl. rewrite (decodeValue_kind _ _ _ Hk).
    cbn [String.eqb Ascii.eqb Bool.eqb get_prop]. by rewrite Hl. }
  split.
  { intros lprops Hk Hl Hv. rewrite (decodeValue_kind _ _ _ Hk).
    cbn [String.eqb Ascii.eqb Bool.eqb get_prop]. rewrite Hl. cbn [obind get_prop].
    by rewrite Hv. }
  split.
  { intros k Hk Hnot Hmember Hbuiltin. rewrite (decodeValue_kind _ _ _ Hk).
    assert (k ≠ "structValue" ∧ k ≠ "nullValue" ∧ k ≠ "listValue") as (H1 & H2 & H3)
      by set_solver.
    apply String.eqb_neq in H1 as ->. apply String.eqb_neq in H2 as ->.
    apply String.eqb_neq in H3 as ->.
    cbn [get_prop]. rewrite Hmember.
    by apply mem_string_false in Hbuiltin as ->. }
  intros Hk Hu. cbn [decodeValue get_prop]. rewrite Hk. simpl. by rewrite Hu.
Qed.

(** [{kind: "structValue"}], [{kind: "listValue"}],
    [{kind: "listValue", listValue: {}}] and [{kind: "fooValue"}]. *)
Lemma decoder_malformed_input_witness :
  structToObj 1 (JObj [("other", JPrim VNull)]) = Ret (JObj []) ∧
  decodeValue 1 (JObj [("kind", JPrim (VString "structValue"))])
    = Throw ThrownTypeError ∧
  decodeValue 1 (JObj [("kind", JPrim (VString "listValue"))])
    = Throw ThrownTypeError ∧
  decodeValue 1 (JObj [ ("kind", JPrim (VString "listValue"));
                        ("listValue", JObj []) ])
    = Throw ThrownTypeError ∧
  decodeValue 1 (JObj [("kind", JPrim (VString "fooValue"))])
    = Ret (JPrim VUndefined) ∧
  decodeValue 1 (JObj [("numberValue", JPrim (VNumber one))])
    = Ret (JPrim VUndefined).
Proof.
  split; [|split; [|split; [|split; [|split]]]].
  - exact (proj1 (proj2 (proj2 (decoder_malformed_input 1
             [("other", JPrim VNull)]))) eq_refl).
  - exact (proj1 (proj2 (proj2 (proj2 (decoder_malformed_input 0
             [("kind", JPrim (VString "structValue"))])))) eq_refl eq_refl).
  - exact (proj1 (proj2 (proj2 (proj2 (proj2 (decoder_malformed_input 0
             [("kind", JPrim (VString "listValue"))]))))) eq_refl eq_refl).
  - exact (proj1 (proj2 (proj2 (proj2 (proj2 (proj2 (decoder_malformed_input 0
             [ ("kind", JPrim (VString "listValue")); ("listValue", JObj []) ]))))))
             [] eq_refl eq_refl eq_refl).
  - apply (proj1 (proj2 (proj2 (proj2 (proj2 (proj2 (proj2 (decoder_malformed_input 0
             [("kind", JPrim (VString "fooValue"))])))))))
             "fooValue" eq_refl).
    + apply (bool_decide_unpack _). reflexivity.
    + reflexivity.
    + apply (bool_decide_unpack _). reflexivity.
  - exact (proj2 (proj2 (proj2 (proj2 (proj2 (proj2 (proj2 (decoder_malformed_input 0
             [("numberValue", JPrim (VNumber one))]))))))) eq_refl eq_refl).
Defined.

(** ** The decoder terminates *)

Lemma foldr_max_le {A : Type} (f : A → nat) (x : A) (xs : list A) :
  x ∈ xs → (f x ≤ foldr Nat.max 0 (map f xs))%nat.
Proof.
  induction xs as [|y xs IH]; intros Hin; [by apply elem_of_nil in Hin|].
  apply elem_of_cons in Hin as [->|Hin]; simpl; [lia|].
  specialize (IH Hin). lia.
Qed.

Lemma depth_prop_lookup (k : string) (props : list (string * jsval)) (c : jsval) :
  prop_lookup k props = Some c → depth c < depth (JObj props).
Proof.
  intros Hk. cbn [depth].
  assert (Hin : (k, c) ∈ props ∨ ∃ k', (k', c) ∈ props).
  { right. induction props as [|[k' v] props IH]; [done|]. simpl in Hk.
    destruct (String.eqb k k').
    - injection Hk as ->. exists k'. by left.
    - destruct (IH Hk) as [k'' Hin]. exists k''. by right. }
  destruct Hin as [Hin|[k' Hin]];
    apply (foldr_max_le (fun kv : string * jsval => match kv with
                                                    | (_, v) => depth v
                                                    end)) in Hin; simpl in Hin; lia.
Qed.

Lemma get_prop_depth (o : jsval) (k : string) (c : jsval) :
  get_prop o k = Ret c → depth c < depth o.
Proof.
  destruct o as [[]| |props]; try done. cbn [get_prop].
  destruct (prop_lookup k props) as [v|] eqn:Hk.
  - intros [= <-]. by eapply depth_prop_lookup.
  - destruct (mem_string k Object_prototype_keys); [done|].
    intros [= <-]. simpl. lia.
Qed.

Lemma get_prop_no_fuel (o : jsval) (k : string) : get_prop o k ≠ OutOfFuel.
Proof.
  destruct o as [[]| |props]; try done. cbn [get_prop].
  destruct (prop_lookup k props); [done|].
  by destruct (mem_string k Object_prototype_keys).
Qed.

Lemma array_map_pure_no_fuel (decode : jsval → outcome jsval) (xs : list jsval) :
  (∀ x, x ∈ xs → decode x ≠ OutOfFuel) → array_map_pure decode xs ≠ OutOfFuel.
Proof.
  induction xs as [|x xs IH]; intros Hdec; [done|]. simpl.
  pose proof (Hdec x ltac:(by left)) as Hx.
  destruct (decode x) as [y| | |]; try done. simpl.
  assert (Hxs : array_map_pure decode xs ≠ OutOfFuel)
    by (apply IH; intros; apply Hdec; by right).
  by destruct (array_map_pure decode xs).
Qed.

Lemma structToObj_loop_no_fuel (decode : jsval → outcome jsval) (fields : jsval)
    (keys : list string) (acc : list (string * jsval)) :
  (∀ c, depth c < depth fields → decode c ≠ OutOfFuel) →
  structToObj_loop decode fields keys acc ≠ OutOfFuel.
Proof.
  intros Hdec. revert acc. induction keys as [|k keys IH]; intros acc; [done|].
  cbn [structToObj_loop].
  destruct (call_hasOwnProperty fields k) as [[]| | |] eqn:Hhop; simpl; try done.
  - pose proof (get_prop_no_fuel fields k) as Hget.
    destruct (get_prop fields k) as [v| | |] eqn:Hv; simpl; try done.
    pose proof (Hdec v (get_prop_depth _ _ _ Hv)) as Hdv.
    destruct (decode v) as [d| | |]; simpl; try done.
    unfold assign. destruct (String.eqb k "__proto__"); [done|].
    destruct (prop_lookup k acc); simpl; apply IH.
  - destruct fields as [[]| |props]; try done. simpl in Hhop.
    by destruct (prop_lookup "hasOwnProperty" props) as [[[]| |]|].
Qed.

Lemma structToObj_with_no_fuel (decode : jsval → outcome jsval) (struct : jsval) :
  (∀ c, (depth c + 2 ≤ depth struct)%nat → decode c ≠ OutOfFuel) →
  structToObj_with decode struct ≠ OutOfFuel.
Proof.
  intros Hdec. unfold structToObj_with.
  pose proof (get_prop_no_fuel struct "fields") as Hget.
  destruct (get_prop struct "fields") as [fields| | |] eqn:Hf; simpl; try done.
  apply get_prop_depth in Hf.
  assert (Hloop : ∀ keys, structToObj_loop decode fields keys [] ≠ OutOfFuel).
  { intros keys. apply structToObj_loop_no_fuel. intros c Hc. apply Hdec. lia. }
  destruct fields as [[]| |props]; simpl; try done;
    match goal with
    | |- context [structToObj_loop decode ?f ?ks []] =>
        specialize (Hloop ks); by destruct (structToObj_loop decode f ks [])
    end.
Qed.

(** X11: the decoder always comes to an end.  Its recursion is no deeper
    than the value is nested: with more fuel than the depth of the value,
    [decodeValue] and [structToObj] never run out of fuel. *)
Theorem decoder_terminates (fuel : nat) :
  (∀ v, depth v < fuel → decodeValue fuel v ≠ OutOfFuel) ∧
  (∀ struct, (depth struct ≤ fuel)%nat → structToObj fuel struct ≠ OutOfFuel).
Proof.
  induction fuel as [|fuel [IHv _]].
  { split; [intros v Hv; lia|]. intros struct Hs.
    apply structToObj_with_no_fuel. intros c Hc. lia. }
  assert (Hdec : ∀ v, depth v < S fuel → decodeValue (S fuel) v ≠ OutOfFuel).
  { intros v Hv. cbn [decodeValue].
    pose proof (get_prop_no_fuel v "kind") as Hget.
    destruct (get_prop v "kind") as [kind| | |] eqn:Hkind; simpl; try done.
    destruct (is_string kind "structValue").
    { pose proof (get_prop_no_fuel v "structValue") as Hget'.
      destruct (get_prop v "structValue") as [s| | |] eqn:Hs; simpl; try done.
      apply get_prop_depth in Hs.
      apply structToObj_with_no_fuel. intros c Hc. apply IHv. lia. }
    destruct (is_string kind "nullValue"); [done|].
    destruct (is_string kind "listValue").
    { pose proof (get_prop_no_fuel v "listValue") as Hget'.
      destruct (get_prop v "listValue") as [lv| | |] eqn:Hlv; simpl; try done.
      apply get_prop_depth in Hlv.
      pose proof (get_prop_no_fuel lv "values") as Hget''.
      destruct (get_prop lv "values") as [values| | |] eqn:Hvs; simpl; try done.
      apply get_prop_depth in Hvs.
      destruct values as [[]|xs|props]; try done.
      assert (Hxs : array_map_pure (decodeValue fuel) xs ≠ OutOfFuel).
      { apply array_map_pure_no_fuel. intros x Hx. apply IHv.
        apply (foldr_max_le depth) in Hx. simpl in Hvs. lia. }
      by destruct (array_map_pure (decodeValue fuel) xs). }
    destruct (to_property_key kind) as [k| | |] eqn:Hk; simpl; try done.
    - apply get_prop_no_fuel.
    - by destruct kind as [[| |[]| | | | |]| |]. }
  split; [done|]. intros struct Hs.
  apply structToObj_with_no_fuel. intros c Hc. apply Hdec. lia.
Qed.

Lemma decoder_terminates_witness :
  decodeValue 5 list_with_kind ≠ OutOfFuel ∧
  structToObj 6 struct_with_kind ≠ OutOfFuel.
Proof.
  split.
  - apply (proj1 (decoder_terminates 5) list_with_kind).
    unfold list_with_kind. simpl. lia.
  - apply (proj2 (decoder_terminates 6) struct_with_kind).
    unfold struct_with_kind. simpl. lia.
Defined.

(** ** [convert] does not classify its argument *)

(** X12: [convert] never asks whether [obj] itself is plain or already in
    [seenObjects]; only members go through those tests.  So an object
    whose own enumerable members other than [undefined] are all null,
    booleans, numbers or strings (none under the key [__proto__]) is
    always converted, whatever its prototype, the options and the state:
    one tagged member each, in order; the cache is untouched and [obj] is
    out of [seenObjects] afterwards even if it was in before. *)
Theorem convert_flat_object (h : heap) (this : ObjectToStructConverter)
    (fuel : nat) (obj : loc) (o : ordinary) (st : state) :
  h !! obj = Some (OOrdinary o) →
  NoDup (p_key <$> o_own o) →
  Forall (fun p => is_primitive (p_value p) = true ∧ p_key p ≠ "__proto__")
         (encodable_members o) →
  convert h this (S fuel) obj st
    = (Ret (JObj [("fields",
                   JObj (map (fun p => (p_key p, tagged (JPrim (p_value p))))
                             (encodable_members o)))]),
       mkState (seenObjects st ∖ {[obj]}) (isPlainObjectCache st)).
Proof.
  intros Hobj Hnd Hflat.
  set (s1 := mkState ({[obj]} ∪ seenObjects st) (isPlainObjectCache st)).
  destruct (convert_loop_run (encodeValue_ h this (S fuel)) (fun s => s = s1) o
              (fun v y => y = tagged (JPrim v)) (for_in_keys o) [] s1)
    as (encoded & Hencoded & Hrun); [done| |].
  { rewrite (visited_members_for_in _ Hnd). apply Forall_fmap.
    eapply Forall_impl; [exact Hflat|]. intros p [Hp _] s ->. simpl.
    exists (tagged (JPrim (p_value p))), s1.
    split; [|done]. by destruct (p_value p). }
  rewrite (visited_members_for_in _ Hnd) in Hencoded, Hrun.
  apply Forall2_fmap_l in Hencoded. simpl in Hencoded.
  rewrite <- list_fmap_compose in Hrun.
  change (fst ∘ (fun p => (p_key p, p_value p))) with p_key in Hrun.
  assert (Hzip : zip (p_key <$> encodable_members o) encoded
                 = map (fun p => (p_key p, tagged (JPrim (p_value p))))
                       (encodable_members o)).
  { clear -Hencoded. induction Hencoded as [|p e ps es -> _ IH]; [done|].
    rewrite fmap_cons. cbn [zip zip_with map]. f_equal. exact IH. }
  rewrite Hzip in Hrun.
  destruct (Hrun (map (fun p => (p_key p, tagged (JPrim (p_value p))))
                      (encodable_members o))) as (s2 & Hloop & ->).
  { rewrite assign_all_fresh; [done| |].
    - simpl. rewrite <- list_fmap_compose.
      change (fst ∘ (fun p => (p_key p, tagged (JPrim (p_value p))))) with p_key.
      by apply encodable_members_NoDup.
    - apply Forall_fmap. eapply Forall_impl; [exact Hflat|]. by intros p [_ ?]. }
  unfold convert, convert_with. rewrite Hobj.
  unfold seen_add at 1. erewrite bind_Ret_intro by reflexivity.
  fold s1. rewrite (bind_Ret_intro _ _ _ _ _ Hloop).
  unfold seen_delete at 1. erewrite bind_Ret_intro by reflexivity.
  unfold ret, s1. simpl. do 2 f_equal. set_solver.
Qed.

(** A class instance that is already in [seenObjects]. *)
Lemma convert_flat_object_witness :
  convert {[ 1 := OOrdinary flat_class_instance ]} default_converter 1 1
          (mkState {[ 1 ]} ∅)
    = (Ret (JObj [("fields",
                   JObj [ ("name", JObj [("stringValue", JPrim (VString "x"))]);
                          ("size", JObj [("numberValue", JPrim (VNumber five))]) ])]),
       mkState ({[ 1 ]} ∖ {[ 1 ]}) ∅).
Proof.
  rewrite (convert_flat_object {[ 1 := OOrdinary flat_class_instance ]}
             default_converter 0 1 flat_class_instance (mkState {[ 1 ]} ∅)).
  - reflexivity.
  - reflexivity.
  - apply (bool_decide_unpack _). reflexivity.
  - apply (bool_decide_unpack _). reflexivity.
Defined.

(** ** A classification that throws *)

(** X13: a call of [isPlainObject] that does not return a boolean caches
    nothing and changes nothing: it leaves the state as it was, so the
    next call on the same object starts over.  It throws only a TypeError,
    and only for an object without a cached answer. *)
Theorem isPlainObject_failure_not_cached (h : heap) (x : loc) (st st' : state)
    (r : outcome bool) :
  isPlainObject h x st = (r, st') →
  (∀ b, r ≠ Ret b) →
  st' = st ∧ isPlainObjectCache st !! x = None ∧
  (∀ e, r = Throw e → e = ThrownTypeError).
Proof.
  unfold isPlainObject, bind, cache_get, cache_set, ret, throw, unmodelled.
  destruct (isPlainObjectCache st !! x) as [c|] eqn:Hc.
  { intros [= <- <-] Hr. by destruct (Hr c). }
  assert (Hok : ∀ b s, (Ret b, s) = (r, st') → (∀ b', r ≠ Ret b') →
    st' = st ∧ @None bool = None ∧ (∀ e, r = Throw e → e = ThrownTypeError)).
  { intros b s [= <- <-] Hr. by destruct (Hr b). }
  destruct (h !! x) as [o|]; [|by intros [= <- <-]].
  destruct (getPrototypeOf o) as [| |[constr|] keys]; simpl; try by apply Hok.
  destruct (ctor_typeof_function constr); simpl; [|by apply Hok].
  destruct (ctor_instanceof_self constr) as [inst|].
  - destruct (inst && ctor_tag_Function constr); simpl; by apply Hok.
  - intros [= <- <-] _. split; [done|]. split; [done|]. by intros e [= <-].
Qed.

Lemma isPlainObject_failure_not_cached_witness :
  no_state = no_state ∧ isPlainObjectCache no_state !! 1 = None ∧
  (∀ e, Throw ThrownTypeError = @Throw bool e → e = ThrownTypeError).
Proof.
  apply (isPlainObject_failure_not_cached
           {[ 1 := object_with_arrow_constructor ]} 1 no_state no_state
           (Throw ThrownTypeError)).
  - reflexivity.
  - intros b. discriminate.
Defined.
